(** * fbmsg-analyzer: a shallow embedding of [analyze.py]

    The statistics engine of the analyzer (classification of one message,
    the fold over the message list, the final averaging pass and the order
    in which interval rows are printed) is transcribed function by function
    from [src/analyze.py].  Python values are modelled as follows:

    - [str] is a list of code points ([pystr]); [len] is [length];
    - [int] is [Z]; a [float] is only ever the result of one true division
      [a / b] of two [int]s and is kept as [PyFloat a b], the double that
      Python returns for these operands (its digits are not computed);
    - a [dict] is an insertion-ordered association list ([dict K V]) with
      Python's update-in-place / append-when-new behaviour;
    - an exception aborts the run: fallible code returns [result]. *)

From Stdlib Require Import String Ascii.
From Stdlib Require Import ZArith NArith List Bool Lia Permutation Sorted.
Import ListNotations.
Local Open Scope Z_scope.

(** ** Exceptions and the error monad *)

Inductive exn : Type :=
| KeyError
| TypeError
| AttributeError
| ZeroDivisionError.

Inductive result (A : Type) : Type :=
| Ok (a : A)
| Err (e : exn).
Arguments Ok {A} a.
Arguments Err {A} e.

Definition bind {A B : Type} (m : result A) (k : A -> result B) : result B :=
  match m with
  | Ok a => k a
  | Err e => Err e
  end.

Notation "x <- m ;; k" := (bind m (fun x => k))
  (at level 61, m at next level, right associativity).

(** ** Python strings *)

Definition pystr : Type := list N.

Definition py (s : string) : pystr :=
  List.map N_of_ascii (list_ascii_of_string s).

Definition pystr_eq_dec : forall a b : pystr, {a = b} + {a <> b} :=
  list_eq_dec N.eq_dec.
Arguments pystr_eq_dec : simpl never.

(** [sub] is a prefix of [s]. *)
Fixpoint starts_with (sub s : pystr) : bool :=
  match sub, s with
  | [], _ => true
  | _ :: _, [] => false
  | a :: sub', b :: s' => N.eqb a b && starts_with sub' s'
  end.

(** [sub in s]: some suffix of [s] starts with [sub]. *)
Fixpoint str_in (sub s : pystr) : bool :=
  starts_with sub s ||
  match s with
  | [] => false
  | _ :: tl => str_in sub tl
  end.

(** [s.endswith(sub)]. *)
Definition ends_with (s sub : pystr) : bool :=
  starts_with (rev sub) (rev s).

(** The left-to-right scan of [s.count(sub)] for a non-empty [sub]: after a
    match the scan resumes behind the matched text, so [skip] positions are
    passed over. *)
Fixpoint count_scan (sub : pystr) (skip : nat) (s : pystr) : Z :=
  match s with
  | [] => 0
  | _ :: tl =>
      match skip with
      | S k => count_scan sub k tl
      | O => if starts_with sub s
             then 1 + count_scan sub (length sub - 1) tl
             else count_scan sub 0 tl
      end
  end.

(** [s.count(sub)]: number of non-overlapping occurrences. *)
Definition str_count (s sub : pystr) : Z :=
  match sub with
  | [] => Z.of_nat (length s) + 1
  | _ :: _ => count_scan sub 0 s
  end.

(** Decimal digits of a natural number, most significant first. *)
Fixpoint digits_fuel (fuel : nat) (n : N) (acc : pystr) : pystr :=
  match fuel with
  | O => acc
  | S f =>
      let acc' := (48 + n mod 10)%N :: acc in
      if (n <? 10)%N then acc' else digits_fuel f (n / 10)%N acc'
  end.

Definition digits (n : N) : pystr :=
  digits_fuel (S (N.to_nat (N.log2 n))) n [].

(** [str(z)] and ['%d' % z]. *)
Definition str_of_int (z : Z) : pystr :=
  if z <? 0 then 45%N :: digits (Z.abs_N z) else digits (Z.abs_N z).

(** ['%02d' % z]: zero-padded to a minimum width of two, sign included. *)
Definition fmt_02d (z : Z) : pystr :=
  let ds := digits (Z.abs_N z) in
  if z <? 0
  then 45%N :: ds
  else repeat 48%N (2 - length ds) ++ ds.

(** ** Dictionaries *)

Section Dict.
Context {K V : Type}.
Variable K_eq_dec : forall a b : K, {a = b} + {a <> b}.

Definition dict : Type := list (K * V).

(** [d.get(k)]. *)
Fixpoint get (k : K) (d : dict) : option V :=
  match d with
  | [] => None
  | (k', v) :: tl => if K_eq_dec k k' then Some v else get k tl
  end.

(** [d[k] = v]. *)
Fixpoint set (k : K) (v : V) (d : dict) : dict :=
  match d with
  | [] => [(k, v)]
  | (k', v') :: tl =>
      if K_eq_dec k k' then (k', v) :: tl else (k', v') :: set k v tl
  end.

(** [k in d]. *)
Definition has_key (k : K) (d : dict) : bool :=
  match get k d with
  | Some _ => true
  | None => false
  end.

(** [d[k]]. *)
Definition subscript (k : K) (d : dict) : result V :=
  match get k d with
  | Some v => Ok v
  | None => Err KeyError
  end.

Definition keys (d : dict) : list K := List.map fst d.
Definition values (d : dict) : list V := List.map snd d.
End Dict.
Arguments dict K V : clear implicits.

(** ** Data model *)

Inductive interval_mode : Type :=
| hourly
| monthly
| yearly.

(** A [datetime], as [datetime.fromtimestamp] returns it. *)
Record datetime : Type := {
  year : Z;
  month : Z;
  day : Z;
  hour : Z;
  minute : Z;
  second : Z;
  microsecond : Z
}.

(** An interval is an [int] (hour of day) or a [str] (month or year). *)
Inductive interval_key : Type :=
| Hour (h : Z)
| Label (s : pystr).

Definition interval_key_eq_dec :
  forall a b : interval_key, {a = b} + {a <> b}.
Proof.
  decide equality; [apply Z.eq_dec | apply pystr_eq_dec].
Defined.

(** A sub-statistics profile: one counter per key of [DATA_COLLECTED].
    [avg_msg_len] holds an [int] sum while folding ([A := Z]) and a number
    after the averaging pass ([A := number]). *)
Record counters (A : Type) : Type := {
  msgs_sent : Z;
  avg_msg_len : A;
  photos_sent : Z;
  vids_sent : Z;
  links_sent : Z;
  gifs_sent : Z;
  emojis_sent : Z;
  reactions : Z
}.
Arguments msgs_sent {A} c.
Arguments avg_msg_len {A} c.
Arguments photos_sent {A} c.
Arguments vids_sent {A} c.
Arguments links_sent {A} c.
Arguments gifs_sent {A} c.
Arguments emojis_sent {A} c.
Arguments reactions {A} c.

(** A number of the finished table: an [int], or the [float] that the true
    division [num / den] of two [int]s returned.  [PyFloat num den] names
    that double by the operands of the division; its digits are not
    computed, and two pairs of operands may name the same double. *)
Inductive number : Type :=
| PyInt (z : Z)
| PyFloat (num den : Z).

(** A statistics profile of one interlocutor: the general counters and the
    ['int'] dictionary from interval to counters. *)
Record profile (A : Type) : Type := {
  general : counters A;
  int : dict interval_key (counters A)
}.
Arguments general {A} p.
Arguments int {A} p.

(** A value of the [stats] dictionary: a profile under a participant's name,
    or the list of intervals under the key ['intervals']. *)
Inductive slot (A : Type) : Type :=
| Person (p : profile A)
| Intervals (l : list interval_key).
Arguments Person {A} p.
Arguments Intervals {A} l.

Definition stats_table (A : Type) : Type := dict pystr (slot A).

Module Msg.
Record photo : Type := { uri : pystr }.
Record video : Type := { video_uri : pystr }.
Record reaction : Type := { actor : pystr }.

(** One element of [convo['messages']], after the ['timestamp'] key has
    been added.  An absent key is [None]. *)
Record message : Type := {
  sender_name : pystr;
  timestamp : datetime;
  content : option pystr;
  photos : option (list photo);
  gifs : option (list photo);
  videos : option (list video);
  reactions : option (list reaction);
  share : option (dict pystr pystr)
}.
End Msg.

Record conversation : Type := {
  participants : list pystr;
  messages : list Msg.message
}.

(** Truthiness of [msg.get(key)] for a string, list or dictionary. *)
Definition truthy {A : Type} (o : option (list A)) : bool :=
  match o with
  | Some (_ :: _) => true
  | _ => false
  end.

(** [msg.get(key, [])]. *)
Definition get_or_empty {A : Type} (o : option (list A)) : list A :=
  match o with
  | Some l => l
  | None => []
  end.

(** [msg[key]]. *)
Definition field {A : Type} (o : option A) : result A :=
  match o with
  | Some a => Ok a
  | None => Err KeyError
  end.

(** [range(n)]. *)
Definition range (n : nat) : list Z := List.map Z.of_nat (seq 0 n).

(** A dictionary comprehension [{key(x): value(x) for x in xs}]. *)
Definition dict_comprehension {X K V : Type}
    (K_eq_dec : forall a b : K, {a = b} + {a <> b})
    (key : X -> K) (value : X -> V) (xs : list X) : dict K V :=
  fold_left (fun d x => set K_eq_dec (key x) (value x) d) xs [].

(** ** The classifier *)

Section Analyzer.

(** The keys of [emoji.UNICODE_EMOJI], a table of the third-party [emoji]
    package. *)
Variable UNICODE_EMOJI : list pystr.

Definition int_of_bool (b : bool) : Z := if b then 1 else 0.

Definition is_emoji (c : N) : bool :=
  if in_dec pystr_eq_dec [c] UNICODE_EMOJI then true else false.

Definition count_emoji (s : pystr) : Z :=
  let unorthodox_counting := str_count s (py "\u") / 4 in
  let orthodox_counting :=
    fold_left (fun a c => a + int_of_bool (is_emoji c)) s 0 in
  unorthodox_counting + orthodox_counting.

Definition is_gif (p : Msg.photo) : bool :=
  str_in (py ".gif") (Msg.uri p).

Definition get_correct_interval (stamp : datetime) (mode : interval_mode)
  : interval_key :=
  match mode with
  | hourly => Hour (hour stamp)
  | monthly =>
      Label (str_of_int (year stamp) ++ py "-" ++ fmt_02d (month stamp))
  | yearly => Label (str_of_int (year stamp))
  end.

(** ** Statistics profiles *)

Definition _create_stats : counters Z :=
  {| msgs_sent := 0; avg_msg_len := 0; photos_sent := 0; vids_sent := 0;
     links_sent := 0; gifs_sent := 0; emojis_sent := 0; reactions := 0 |}.

Definition create_stats (mode : interval_mode) : profile Z :=
  {| general := _create_stats;
     int := match mode with
            | hourly =>
                dict_comprehension interval_key_eq_dec
                  Hour (fun _ => _create_stats) (range 24)
            | monthly | yearly => []
            end |}.

(** [c[key] += n] for each key of a sub-statistics profile. *)
Definition add_msgs_sent (n : Z) (c : counters Z) : counters Z :=
  {| msgs_sent := msgs_sent c + n; avg_msg_len := avg_msg_len c;
     photos_sent := photos_sent c; vids_sent := vids_sent c;
     links_sent := links_sent c; gifs_sent := gifs_sent c;
     emojis_sent := emojis_sent c; reactions := reactions c |}.

Definition add_avg_msg_len (n : Z) (c : counters Z) : counters Z :=
  {| msgs_sent := msgs_sent c; avg_msg_len := avg_msg_len c + n;
     photos_sent := photos_sent c; vids_sent := vids_sent c;
     links_sent := links_sent c; gifs_sent := gifs_sent c;
     emojis_sent := emojis_sent c; reactions := reactions c |}.

Definition add_photos_sent (n : Z) (c : counters Z) : counters Z :=
  {| msgs_sent := msgs_sent c; avg_msg_len := avg_msg_len c;
     photos_sent := photos_sent c + n; vids_sent := vids_sent c;
     links_sent := links_sent c; gifs_sent := gifs_sent c;
     emojis_sent := emojis_sent c; reactions := reactions c |}.

Definition add_vids_sent (n : Z) (c : counters Z) : counters Z :=
  {| msgs_sent := msgs_sent c; avg_msg_len := avg_msg_len c;
     photos_sent := photos_sent c; vids_sent := vids_sent c + n;
     links_sent := links_sent c; gifs_sent := gifs_sent c;
     emojis_sent := emojis_sent c; reactions := reactions c |}.

Definition add_links_sent (n : Z) (c : counters Z) : counters Z :=
  {| msgs_sent := msgs_sent c; avg_msg_len := avg_msg_len c;
     photos_sent := photos_sent c; vids_sent := vids_sent c;
     links_sent := links_sent c + n; gifs_sent := gifs_sent c;
     emojis_sent := emojis_sent c; reactions := reactions c |}.

Definition add_gifs_sent (n : Z) (c : counters Z) : counters Z :=
  {| msgs_sent := msgs_sent c; avg_msg_len := avg_msg_len c;
     photos_sent := photos_sent c; vids_sent := vids_sent c;
     links_sent := links_sent c; gifs_sent := gifs_sent c + n;
     emojis_sent := emojis_sent c; reactions := reactions c |}.

Definition add_emojis_sent (n : Z) (c : counters Z) : counters Z :=
  {| msgs_sent := msgs_sent c; avg_msg_len := avg_msg_len c;
     photos_sent := photos_sent c; vids_sent := vids_sent c;
     links_sent := links_sent c; gifs_sent := gifs_sent c;
     emojis_sent := emojis_sent c + n; reactions := reactions c |}.

Definition add_reactions (n : Z) (c : counters Z) : counters Z :=
  {| msgs_sent := msgs_sent c; avg_msg_len := avg_msg_len c;
     photos_sent := photos_sent c; vids_sent := vids_sent c;
     links_sent := links_sent c; gifs_sent := gifs_sent c;
     emojis_sent := emojis_sent c; reactions := reactions c + n |}.

(** ** Access paths into the [stats] dictionary *)

(** [stats[name]], about to be subscripted with a string key: a list (the
    value under ['intervals']) rejects the subscript. *)
Definition profile_of {A : Type} (stats : stats_table A) (name : pystr)
  : result (profile A) :=
  e <- subscript pystr_eq_dec name stats ;;
  match e with
  | Person p => Ok p
  | Intervals _ => Err TypeError
  end.

(** [stats[name][key] += n], with [f] the update of that key. *)
Definition upd_general (name : pystr) (f : counters Z -> counters Z)
    (stats : stats_table Z) : result (stats_table Z) :=
  p <- profile_of stats name ;;
  Ok (set pystr_eq_dec name
        (Person {| general := f (general p); int := int p |}) stats).

(** [stats[name]['int'][interval][key] += n]. *)
Definition upd_interval (name : pystr) (interval : interval_key)
    (f : counters Z -> counters Z) (stats : stats_table Z)
  : result (stats_table Z) :=
  p <- profile_of stats name ;;
  c <- subscript interval_key_eq_dec interval (int p) ;;
  Ok (set pystr_eq_dec name
        (Person {| general := general p;
                   int := set interval_key_eq_dec interval (f c) (int p) |})
        stats).

(** [stats[name]['int'][interval] = c]. *)
Definition assign_interval (name : pystr) (interval : interval_key)
    (c : counters Z) (stats : stats_table Z) : result (stats_table Z) :=
  p <- profile_of stats name ;;
  Ok (set pystr_eq_dec name
        (Person {| general := general p;
                   int := set interval_key_eq_dec interval c (int p) |})
        stats).

(** [if interval not in stats[name]['int']:
       stats[name]['int'][interval] = _create_stats()]. *)
Definition ensure_interval (name : pystr) (interval : interval_key)
    (stats : stats_table Z) : result (stats_table Z) :=
  p <- profile_of stats name ;;
  if has_key interval_key_eq_dec interval (int p)
  then Ok stats
  else assign_interval name interval _create_stats stats.

(** ** The handlers *)

Definition len (s : pystr) : Z := Z.of_nat (List.length s).

Definition handle_content (stats : stats_table Z) (interval : interval_key)
    (msg : Msg.message) : result (stats_table Z) :=
  let name := Msg.sender_name msg in
  content <- field (Msg.content msg) ;;
  let emojis := count_emoji content in
  stats <- upd_general name (add_msgs_sent 1) stats ;;
  stats <- upd_general name (add_avg_msg_len (len content)) stats ;;
  stats <- upd_general name (add_emojis_sent emojis) stats ;;
  stats <- upd_interval name interval (add_msgs_sent 1) stats ;;
  stats <- upd_interval name interval (add_avg_msg_len (len content)) stats ;;
  upd_interval name interval (add_emojis_sent emojis) stats.

(** The counting loop of [handle_photos_and_gifs]; the state is
    [(photos, gifs)]. *)
Definition tally (ps : list Msg.photo) : Z * Z :=
  fold_left
    (fun '(photos, gifs) p =>
       if is_gif p then (photos, gifs + 1) else (photos + 1, gifs))
    ps (0, 0).

Definition handle_photos_and_gifs (stats : stats_table Z)
    (interval : interval_key) (msg : Msg.message)
  : result (stats_table Z) :=
  let name := Msg.sender_name msg in
  let '(photos, gifs) :=
    tally (get_or_empty (Msg.photos msg) ++ get_or_empty (Msg.gifs msg)) in
  stats <- upd_general name (add_photos_sent photos) stats ;;
  stats <- upd_general name (add_gifs_sent gifs) stats ;;
  stats <- upd_interval name interval (add_photos_sent photos) stats ;;
  upd_interval name interval (add_gifs_sent gifs) stats.

(** In [stats[name]['vids_sent'] += len(msg['videos'])] the counter on the
    left is looked up before [msg['videos']] on the right, and so is the
    counter of the interval in the second statement. *)
Definition handle_videos (stats : stats_table Z) (interval : interval_key)
    (msg : Msg.message) : result (stats_table Z) :=
  let name := Msg.sender_name msg in
  _ <- profile_of stats name ;;
  videos <- field (Msg.videos msg) ;;
  stats <- upd_general name (add_vids_sent (Z.of_nat (List.length videos)))
             stats ;;
  p <- profile_of stats name ;;
  _ <- subscript interval_key_eq_dec interval (int p) ;;
  videos <- field (Msg.videos msg) ;;
  upd_interval name interval
    (add_vids_sent (Z.of_nat (List.length videos))) stats.

Definition handle_links (stats : stats_table Z) (interval : interval_key)
    (msg : Msg.message) : result (stats_table Z) :=
  let name := Msg.sender_name msg in
  stats <- upd_general name (add_links_sent 1) stats ;;
  upd_interval name interval (add_links_sent 1) stats.

(** The loop of [handle_reactions] over [msg['reactions']]. *)
Fixpoint handle_reactions_loop (stats : stats_table Z)
    (interval : interval_key) (rs : list Msg.reaction)
  : result (stats_table Z) :=
  match rs with
  | [] => Ok stats
  | r :: rest =>
      let actor := Msg.actor r in
      stats <- ensure_interval actor interval stats ;;
      stats <- upd_general actor (add_reactions 1) stats ;;
      stats <- upd_interval actor interval (add_reactions 1) stats ;;
      handle_reactions_loop stats interval rest
  end.

Definition handle_reactions (stats : stats_table Z)
    (interval : interval_key) (msg : Msg.message)
  : result (stats_table Z) :=
  rs <- field (Msg.reactions msg) ;;
  handle_reactions_loop stats interval rs.

(** ** The aggregator *)

Definition intervals_key : pystr := py "intervals".

(** [if interval not in stats['intervals']:
       stats['intervals'].append(interval)].
    Were the value a profile (a [dict], whose keys are never interval
    keys), [append] would be missing. *)
Definition note_interval (interval : interval_key) (stats : stats_table Z)
  : result (stats_table Z) :=
  e <- subscript pystr_eq_dec intervals_key stats ;;
  match e with
  | Intervals l =>
      if in_dec interval_key_eq_dec interval l
      then Ok stats
      else Ok (set pystr_eq_dec intervals_key
                 (Intervals (l ++ [interval])) stats)
  | Person _ => Err AttributeError
  end.

(** [if cond: stats <- handler]. *)
Definition when (cond : bool) (handler : result (stats_table Z))
    (stats : stats_table Z) : result (stats_table Z) :=
  if cond then handler else Ok stats.

(** The body of the loop [for msg in convo['messages']] of [analyze]. *)
Definition analyze_step (mode : interval_mode) (stats : stats_table Z)
    (msg : Msg.message) : result (stats_table Z) :=
  let interval := get_correct_interval (Msg.timestamp msg) mode in
  let name := Msg.sender_name msg in
  stats <- note_interval interval stats ;;
  stats <- ensure_interval name interval stats ;;
  stats <- when (truthy (Msg.content msg))
             (handle_content stats interval msg) stats ;;
  stats <- when (truthy (Msg.photos msg) || truthy (Msg.gifs msg))
             (handle_photos_and_gifs stats interval msg) stats ;;
  stats <- when (truthy (Msg.videos msg))
             (handle_videos stats interval msg) stats ;;
  stats <- when (truthy (Msg.reactions msg))
             (handle_reactions stats interval msg) stats ;;
  when (truthy (Msg.share msg)) (handle_links stats interval msg) stats.

Fixpoint analyze_loop (mode : interval_mode) (stats : stats_table Z)
    (msgs : list Msg.message) : result (stats_table Z) :=
  match msgs with
  | [] => Ok stats
  | msg :: rest =>
      stats <- analyze_step mode stats msg ;;
      analyze_loop mode stats rest
  end.

(** [stats = {p['name']: create_stats(args) for p in participants}]
    followed by [stats['intervals'] = []]. *)
Definition initial_stats (mode : interval_mode) (names : list pystr)
  : stats_table Z :=
  set pystr_eq_dec intervals_key (Intervals [])
    (dict_comprehension pystr_eq_dec
       (fun name => name) (fun _ => Person (create_stats mode)) names).

(** ** The averaging pass *)

(** [a / b] on two [int]s: [ZeroDivisionError] for a zero divisor, the
    nearest double to the quotient otherwise.  (The operands are sums of
    lengths and numbers of messages, far below the size at which the
    quotient of two [int]s leaves the range of a double.) *)
Definition true_div (a b : Z) : result number :=
  if b =? 0 then Err ZeroDivisionError
  else Ok (PyFloat a b).

Definition with_avg_msg_len {A B : Type} (c : counters A) (avg : B)
  : counters B :=
  {| msgs_sent := msgs_sent c; avg_msg_len := avg;
     photos_sent := photos_sent c; vids_sent := vids_sent c;
     links_sent := links_sent c; gifs_sent := gifs_sent c;
     emojis_sent := emojis_sent c; reactions := reactions c |}.

(** [stats[name]['avg_msg_len'] /= stats[name]['msgs_sent']]. *)
Definition average_general (c : counters Z) : result (counters number) :=
  avg <- true_div (avg_msg_len c) (msgs_sent c) ;;
  Ok (with_avg_msg_len c avg).

(** [if c['msgs_sent'] > 0: c['avg_msg_len'] /= c['msgs_sent']]. *)
Definition average_interval (c : counters Z) : result (counters number) :=
  if msgs_sent c >? 0
  then avg <- true_div (avg_msg_len c) (msgs_sent c) ;;
       Ok (with_avg_msg_len c avg)
  else Ok (with_avg_msg_len c (PyInt (avg_msg_len c))).

(** A loop over the entries of a dictionary that updates every value and
    stops at the first exception. *)
Fixpoint for_each {K A B : Type} (f : K -> A -> result B) (d : dict K A)
  : result (dict K B) :=
  match d with
  | [] => Ok []
  | (k, v) :: rest =>
      v' <- f k v ;;
      rest' <- for_each f rest ;;
      Ok ((k, v') :: rest')
  end.

Definition average_profile (p : profile Z) : result (profile number) :=
  g <- average_general (general p) ;;
  i <- for_each (fun _ c => average_interval c) (int p) ;;
  Ok {| general := g; int := i |}.

(** An entry the averaging pass leaves as it is. *)
Definition untouched (e : slot Z) : slot number :=
  match e with
  | Intervals l => Intervals l
  | Person p =>
      Person
        {| general := with_avg_msg_len (general p)
                        (PyInt (avg_msg_len (general p)));
           int := List.map
                    (fun '(k, c) =>
                       (k, with_avg_msg_len c (PyInt (avg_msg_len c))))
                    (int p) |}
  end.

(** The body of the loop [for name in stats.keys()] of [analyze]. *)
Definition average_entry (name : pystr) (e : slot Z)
  : result (slot number) :=
  if pystr_eq_dec name intervals_key then Ok (untouched e)
  else match e with
       | Person p => p' <- average_profile p ;; Ok (Person p')
       | Intervals _ => Err TypeError
       end.

Definition average_out (stats : stats_table Z)
  : result (stats_table number) :=
  for_each average_entry stats.

(** [analyze], up to the call of [pretty_print_stats]: the statistics that
    are handed to the printer. *)
Definition analyze (convo : conversation) (mode : interval_mode)
  : result (stats_table number) :=
  stats <- analyze_loop mode (initial_stats mode (participants convo))
             (messages convo) ;;
  average_out stats.

(** ** Printing order *)

(** The keys of a profile dictionary, in insertion order. *)
Definition profile_keys : list pystr :=
  [py "msgs_sent"; py "avg_msg_len"; py "photos_sent"; py "vids_sent";
   py "links_sent"; py "gifs_sent"; py "emojis_sent"; py "reactions";
   py "int"].

(** [print_interval_stats]: the intervals in the order their rows are
    printed (the text of a row is not modelled). *)
Definition print_interval_stats {A : Type} (stats : stats_table A)
    (mode : interval_mode) : result (list interval_key) :=
  match mode with
  | hourly => Ok (List.map Hour (range 24))
  | monthly | yearly =>
      e <- subscript pystr_eq_dec intervals_key stats ;;
      match e with
      | Intervals l => Ok l
      | Person _ => Ok (List.map Label profile_keys)
      end
  end.

(** The sum of [msgs_sent] over all participants, that is over the
    profiles stored under a key other than ['intervals'] (the value that
    [pretty_print_stats] prints as the total of messages sent). *)
Definition total_msgs_sent {A : Type} (stats : stats_table A) : Z :=
  fold_right
    (fun '(name, e) acc =>
       if pystr_eq_dec name intervals_key then acc
       else match e with
            | Person p => msgs_sent (general p) + acc
            | Intervals _ => acc
            end)
    0 stats.

End Analyzer.

(** ** Choosing the conversation *)

(** [s.split(sep)] for a separator of one character: the parts between the
    occurrences of [sep], empty parts included. *)
Fixpoint split (sep : N) (s : pystr) : list pystr :=
  match s with
  | [] => [[]]
  | c :: tl =>
      if (c =? sep)%N then [] :: split sep tl
      else match split sep tl with
           | part :: parts => (c :: part) :: parts
           | [] => [[c]]
           end
  end.

(** [sorted(l, key=key, reverse=True)] is stable: keys descend and elements
    of equal keys keep their order.  [x], which stood before all of [l], is
    placed behind the elements of greater key only. *)
Fixpoint insert_reversed {A : Type} (key : A -> Z) (x : A) (l : list A)
  : list A :=
  match l with
  | [] => [x]
  | y :: tl =>
      if key x <? key y then y :: insert_reversed key x tl else x :: l
  end.

Definition sorted_reversed {A : Type} (key : A -> Z) (l : list A) : list A :=
  fold_right (insert_reversed key) [] l.

Section Relevance.

(** [str.lower] of the Python library. *)
Variable lower : pystr -> pystr.

Definition score_relevance (folder s : pystr) : Z :=
  let parts := split 32 (lower s) in
  fold_left (fun a part => a + (if str_in part folder then 1 else 0))
    parts 0.

Definition get_relevant_people_folders (folders : list pystr) (s : pystr)
  : list pystr :=
  let rels := filter (fun f => score_relevance f s >? 0) folders in
  sorted_reversed (fun f => score_relevance f s) rels.

End Relevance.

(** ** Vocabulary of the properties *)

(** Number of positions of [s] at which [sub] occurs (overlaps included). *)
Fixpoint occurrences (sub s : pystr) : Z :=
  int_of_bool (starts_with sub s) +
  match s with
  | [] => 0
  | _ :: tl => occurrences sub tl
  end.

(** Number of reactions in [rs] whose actor is [name]. *)
Definition reactions_by (name : pystr) (rs : list Msg.reaction) : Z :=
  Z.of_nat
    (List.length
       (filter (fun r => if pystr_eq_dec (Msg.actor r) name then true
                         else false) rs)).

(** The counters of [interval] in an ['int'] dictionary, all zero when the
    interval has no entry yet. *)
Definition counters_at (interval : interval_key)
    (d : dict interval_key (counters Z)) : counters Z :=
  match get interval_key_eq_dec interval d with
  | Some c => c
  | None => _create_stats
  end.

(** The profile [p] after the update [f] was applied to its general counters
    and to its counters of [interval]. *)
Definition applied (interval : interval_key)
    (f : counters Z -> counters Z) (p : profile Z) : profile Z :=
  {| general := f (general p);
     int := set interval_key_eq_dec interval
              (f (counters_at interval (int p))) (int p) |}.

(** The profile [p] after [n] reactions in [interval] were credited to it. *)
Definition credited (n : Z) (interval : interval_key) (p : profile Z)
  : profile Z :=
  if n =? 0 then p else applied interval (add_reactions n) p.

(** The update a message with text [content] makes to its sender. *)
Definition content_update (UNICODE_EMOJI : list pystr) (content : pystr)
    (c : counters Z) : counters Z :=
  add_emojis_sent (count_emoji UNICODE_EMOJI content)
    (add_avg_msg_len (len content) (add_msgs_sent 1 c)).

(** The update a message with photo-like attachments [ps] makes. *)
Definition photos_update (ps : list Msg.photo) (c : counters Z)
  : counters Z :=
  add_gifs_sent (Z.of_nat (List.length (filter is_gif ps)))
    (add_photos_sent
       (Z.of_nat (List.length (filter (fun p => negb (is_gif p)) ps))) c).

(** All that a message adds to the counters of its sender before its
    reactions are handled. *)
Definition sender_update (UNICODE_EMOJI : list pystr) (msg : Msg.message)
    (c : counters Z) : counters Z :=
  let c :=
    if truthy (Msg.content msg)
    then content_update UNICODE_EMOJI (get_or_empty (Msg.content msg)) c
    else c in
  let c :=
    if truthy (Msg.photos msg) || truthy (Msg.gifs msg)
    then photos_update
           (get_or_empty (Msg.photos msg) ++ get_or_empty (Msg.gifs msg)) c
    else c in
  if truthy (Msg.videos msg)
  then add_vids_sent (Z.of_nat (List.length (get_or_empty (Msg.videos msg)))) c
  else c.

(** An update that moves [msgs_sent] by [delta], whatever the counters. *)
Definition moves_msgs_sent (delta : Z) (f : counters Z -> counters Z) : Prop :=
  forall c, msgs_sent (f c) = msgs_sent c + delta.

(** Sum of [msgs_sent] over the entries of an ['int'] dictionary. *)
Definition interval_msgs_sent {A : Type}
    (d : dict interval_key (counters A)) : Z :=
  fold_right (fun '(_, c) acc => msgs_sent c + acc) 0 d.

(** P1 for a whole table. *)
Definition totals_consistent {A : Type} (stats : stats_table A) : Prop :=
  forall name p,
    get pystr_eq_dec name stats = Some (Person p) ->
    msgs_sent (general p) = interval_msgs_sent (int p).

(** Number of messages that carry non-empty text. *)
Definition text_messages (msgs : list Msg.message) : Z :=
  Z.of_nat (List.length (filter (fun m => truthy (Msg.content m)) msgs)).

(** Lexicographic order on strings, by code point. *)
Fixpoint str_lt (a b : pystr) : bool :=
  match a, b with
  | _, [] => false
  | [], _ :: _ => true
  | x :: a', y :: b' => (x <? y)%N || ((x =? y)%N && str_lt a' b')
  end.

(** The order of interval keys: numeric on hours, lexicographic on labels. *)
Definition interval_lt (a b : interval_key) : bool :=
  match a, b with
  | Hour x, Hour y => x <? y
  | Label x, Label y => str_lt x y
  | Hour _, Label _ => true
  | Label _, Hour _ => false
  end.

Fixpoint ascending (l : list interval_key) : bool :=
  match l with
  | [] => true
  | a :: tl =>
      match tl with
      | [] => true
      | b :: _ => interval_lt a b && ascending tl
      end
  end.

(** The distinct elements of [l] in the order of their first occurrence,
    accumulated after [seen]. *)
Fixpoint first_seen (seen l : list interval_key) : list interval_key :=
  match l with
  | [] => seen
  | x :: tl =>
      if in_dec interval_key_eq_dec x seen
      then first_seen seen tl
      else first_seen (seen ++ [x]) tl
  end.

(** What [datetime.fromtimestamp] yields for a timestamp at or after the
    epoch: a calendar date between 1969 (local time may lie west of UTC)
    and [datetime.MAXYEAR]. *)
Definition valid_stamp (stamp : datetime) : Prop :=
  1969 <= year stamp <= 9999 /\ 1 <= month stamp <= 12 /\
  0 <= hour stamp <= 23.

(** The code point of the decimal digit of [z] at position [k]. *)
Definition digit_at (z : Z) (k : Z) : N :=
  Z.to_N (48 + (z / 10 ^ k) mod 10).

(** A name that [stats] maps to a profile. *)
Definition has_profile {A : Type} (stats : stats_table A) (name : pystr)
  : Prop :=
  exists p, get pystr_eq_dec name stats = Some (Person p).

(** Every sender and every reacting actor of [msgs] is one of [names] and
    is not called ['intervals']. *)
Definition declared (names : list pystr) (name : pystr) : Prop :=
  In name names /\ name <> intervals_key.

Definition speakers (msg : Msg.message) : list pystr :=
  Msg.sender_name msg ::
  List.map Msg.actor (get_or_empty (Msg.reactions msg)).

Definition well_formed (convo : conversation) : Prop :=
  forall msg name,
    In msg (messages convo) -> In name (speakers msg) ->
    declared (participants convo) name.

(** The interval of a message. *)
Definition interval_of (mode : interval_mode) (msg : Msg.message)
  : interval_key :=
  get_correct_interval (Msg.timestamp msg) mode.

(** [stats'] comes from [stats] by updates of profiles that exist: the list
    under ['intervals'] went from [l] to [l'], the total of [msgs_sent] grew
    by [delta], consistent totals stayed consistent, no name gained or lost
    its profile and the keys are the same, in the same order. *)
Definition evolves (delta : Z) (l l' : list interval_key)
    (stats stats' : stats_table Z) : Prop :=
  get pystr_eq_dec intervals_key stats = Some (Intervals l) /\
  get pystr_eq_dec intervals_key stats' = Some (Intervals l') /\
  (totals_consistent stats -> totals_consistent stats') /\
  total_msgs_sent stats' = total_msgs_sent stats + delta /\
  (forall name, has_profile stats name <-> has_profile stats' name) /\
  (forall name,
      get pystr_eq_dec name stats = None <->
      get pystr_eq_dec name stats' = None) /\
  keys stats' = keys stats.

(** The table holds the list of intervals under ['intervals'], a profile
    under every other name of [names] and nothing else. *)
Definition shaped (names : list pystr) (stats : stats_table Z) : Prop :=
  (exists l, get pystr_eq_dec intervals_key stats = Some (Intervals l)) /\
  forall name,
    name <> intervals_key ->
    (In name names -> has_profile stats name) /\
    (~ In name names -> get pystr_eq_dec name stats = None).

Definition same_text (a b : pystr) : bool :=
  if pystr_eq_dec a b then true else false.

(** ** Vocabulary of the tallies *)

(** Field by field sum of two sub-statistics profiles. *)
Definition counters_add (a b : counters Z) : counters Z :=
  {| msgs_sent := msgs_sent a + msgs_sent b;
     avg_msg_len := avg_msg_len a + avg_msg_len b;
     photos_sent := photos_sent a + photos_sent b;
     vids_sent := vids_sent a + vids_sent b;
     links_sent := links_sent a + links_sent b;
     gifs_sent := gifs_sent a + gifs_sent b;
     emojis_sent := emojis_sent a + emojis_sent b;
     reactions := reactions a + reactions b |}.

(** An update that adds [d], whatever the counters. *)
Definition additive (d : counters Z) (f : counters Z -> counters Z) : Prop :=
  forall c, f c = counters_add c d.

Definition sent_by (name : pystr) (msg : Msg.message) : bool :=
  if pystr_eq_dec (Msg.sender_name msg) name then true else false.

(** What one message is worth to [name]: its text, attachments and link
    when [name] sent it, and the reactions [name] made to it. *)
Definition contribution (UNICODE_EMOJI : list pystr) (name : pystr)
    (msg : Msg.message) : counters Z :=
  let text := get_or_empty (Msg.content msg) in
  let pictures :=
    get_or_empty (Msg.photos msg) ++ get_or_empty (Msg.gifs msg) in
  let wrote := sent_by name msg && truthy (Msg.content msg) in
  {| msgs_sent := int_of_bool wrote;
     avg_msg_len := if wrote then len text else 0;
     photos_sent :=
       if sent_by name msg
       then Z.of_nat
              (List.length (filter (fun a => negb (is_gif a)) pictures))
       else 0;
     vids_sent :=
       if sent_by name msg
       then Z.of_nat (List.length (get_or_empty (Msg.videos msg)))
       else 0;
     links_sent := int_of_bool (sent_by name msg && truthy (Msg.share msg));
     gifs_sent :=
       if sent_by name msg
       then Z.of_nat (List.length (filter is_gif pictures))
       else 0;
     emojis_sent := if wrote then count_emoji UNICODE_EMOJI text else 0;
     reactions := reactions_by name (get_or_empty (Msg.reactions msg)) |}.

(** What a list of messages is worth to [name]. *)
Definition tally_of (UNICODE_EMOJI : list pystr) (name : pystr)
    (msgs : list Msg.message) : counters Z :=
  fold_right
    (fun msg acc => counters_add (contribution UNICODE_EMOJI name msg) acc)
    _create_stats msgs.

(** The messages of one interval. *)
Definition in_interval (mode : interval_mode) (interval : interval_key)
    (msgs : list Msg.message) : list Msg.message :=
  filter
    (fun msg =>
       if interval_key_eq_dec (interval_of mode msg) interval
       then true else false)
    msgs.

(** Between [stats] and [stats'] every profile gained [gain name] in its
    general counters and in its counters of [interval], and nothing in its
    counters of the other intervals. *)
Definition gains (interval : interval_key) (gain : pystr -> counters Z)
    (stats stats' : stats_table Z) : Prop :=
  forall name p,
    get pystr_eq_dec name stats = Some (Person p) ->
    exists p',
      get pystr_eq_dec name stats' = Some (Person p') /\
      general p' = counters_add (general p) (gain name) /\
      counters_at interval (int p') =
        counters_add (counters_at interval (int p)) (gain name) /\
      forall other,
        other <> interval ->
        counters_at other (int p') = counters_at other (int p).

(** Between [stats] and [stats'] every profile gained what [msgs] are worth
    to its name, in general and interval by interval. *)
Definition tallied (UNICODE_EMOJI : list pystr) (mode : interval_mode)
    (msgs : list Msg.message) (stats stats' : stats_table Z) : Prop :=
  forall name p,
    get pystr_eq_dec name stats = Some (Person p) ->
    exists p',
      get pystr_eq_dec name stats' = Some (Person p') /\
      general p' =
        counters_add (general p) (tally_of UNICODE_EMOJI name msgs) /\
      forall interval,
        counters_at interval (int p') =
        counters_add (counters_at interval (int p))
          (tally_of UNICODE_EMOJI name (in_interval mode interval msgs)).

(** The counters of an interval after the averaging pass: the sum of the
    lengths is divided when there are messages and left alone otherwise. *)
Definition averaged (c : counters Z) : counters number :=
  with_avg_msg_len c
    (if msgs_sent c >? 0
     then PyFloat (avg_msg_len c) (msgs_sent c)
     else PyInt (avg_msg_len c)).

(** [name] sent [msg] and [msg] carries text. *)
Definition wrote (name : pystr) (msg : Msg.message) : bool :=
  sent_by name msg && truthy (Msg.content msg).

(** Between [stats] and [stats'] every profile moved along [R]. *)
Definition reworked (R : profile Z -> profile Z -> Prop)
    (stats stats' : stats_table Z) : Prop :=
  forall name p,
    get pystr_eq_dec name stats = Some (Person p) ->
    exists p', get pystr_eq_dec name stats' = Some (Person p') /\ R p p'.

(** The interval entries of [p'] are those of [p] or belong to [added]. *)
Definition entries_within (added : list interval_key) (p p' : profile Z)
  : Prop :=
  forall interval,
    has_key interval_key_eq_dec interval (int p') = true ->
    has_key interval_key_eq_dec interval (int p) = true \/
    In interval added.

(** The words of a query that occur in the name of a folder. *)
Definition words_found (lower : pystr -> pystr) (folder s : pystr)
  : list pystr :=
  filter (fun part => str_in part folder) (split 32 (lower s)).





(** No interval of the list comes after one that follows it. *)
Definition in_order (l : list interval_key) : Prop :=
  StronglySorted (fun a b => a = b \/ interval_lt a b = true) l.

(** ** Sample data *)

Definition noon_in_march : datetime :=
  {| year := 2018; month := 3; day := 9; hour := 14;
     minute := 30; second := 0; microsecond := 0 |}.


Definition first_of (y m : Z) : datetime :=
  {| year := y; month := m; day := 1; hour := 9;
     minute := 0; second := 0; microsecond := 0 |}.

Definition alice : pystr := py "Alice".
Definition bob : pystr := py "Bob".

(** A message that carries nothing but text. *)
Definition text_message (who : pystr) (stamp : datetime) (text : pystr)
  : Msg.message :=
  {| Msg.sender_name := who; Msg.timestamp := stamp;
     Msg.content := Some text; Msg.photos := None; Msg.gifs := None;
     Msg.videos := None; Msg.reactions := None; Msg.share := None |}.

(** Scenario B: a message without text to which Bob reacted. *)
Definition reacted_message : Msg.message :=
  {| Msg.sender_name := alice; Msg.timestamp := noon_in_march;
     Msg.content := None; Msg.photos := None; Msg.gifs := None;
     Msg.videos := None;
     Msg.reactions := Some [ {| Msg.actor := bob |} ];
     Msg.share := None |}.

(** Scenario C: two texts of lengths 4 and 6 in the same interval. *)
Definition two_texts : list Msg.message :=
  [ text_message alice noon_in_march (py "abcd");
    text_message alice noon_in_march (py "abcdef") ].

(** Scenario D: no message at all. *)
Definition silent_convo : conversation :=
  {| participants := [alice]; messages := [] |}.

(** Scenario C with a second participant, who wrote nothing. *)
Definition lurker_convo : conversation :=
  {| participants := [bob; alice]; messages := two_texts |}.

Definition alone_convo : conversation :=
  {| participants := [alice]; messages := two_texts |}.

(** Newest first, the order of an export: February, then January. *)
Definition backwards_convo : conversation :=
  {| participants := [alice];
     messages := [ text_message alice (first_of 2018 2) (py "later");
                   text_message alice (first_of 2018 1) (py "sooner") ] |}.

(** Oldest first: January, then February. *)
Definition forwards_convo : conversation :=
  {| participants := [alice];
     messages := [ text_message alice (first_of 2018 1) (py "sooner");
                   text_message alice (first_of 2018 2) (py "later") ] |}.

(** A sender whose name is the key of the list of intervals. *)
Definition namesake_convo : conversation :=
  {| participants := [alice];
     messages := [ text_message (py "intervals") noon_in_march (py "hi") ] |}.

(** A sender who is no participant. *)
Definition stranger_convo : conversation :=
  {| participants := [alice];
     messages := [ text_message bob noon_in_march (py "hi") ] |}.

(** A picture whose locator holds [.gif] without ending in it. *)
Definition renamed_clip : Msg.photo := {| Msg.uri := py "clip.gif.png" |}.

Definition picture_message : Msg.message :=
  {| Msg.sender_name := alice; Msg.timestamp := noon_in_march;
     Msg.content := None;
     Msg.photos := Some [ renamed_clip; {| Msg.uri := py "a.jpg" |} ];
     Msg.gifs := Some [ {| Msg.uri := py "b.gif" |} ];
     Msg.videos := None; Msg.reactions := None; Msg.share := None |}.

(** ** Facts about strings *)

Section StringFacts.

Lemma fold_left_tally (f : N -> bool) (s : pystr) (acc : Z) :
  fold_left (fun a c => a + int_of_bool (f c)) s acc =
  acc + Z.of_nat (List.length (filter f s)).
Proof.
  revert acc; induction s as [|c s IH]; intros acc; simpl.
  - lia.
  - rewrite IH. destruct (f c); simpl List.length; unfold int_of_bool; lia.
Qed.

(** The marker's two characters differ, so its occurrences never overlap
    and the scan of [str.count] sees all of them. *)
Lemma count_scan_marker (n : nat) :
  forall s, (List.length s <= n)%nat ->
    count_scan (py "\u") 0 s = occurrences (py "\u") s.
Proof.
  change (py "\u") with [92%N; 117%N].
  induction n as [|n IH]; intros s Hn.
  - destruct s; [reflexivity | simpl in Hn; lia].
  - destruct s as [|a tl]; [reflexivity|].
    simpl in Hn.
    cbn [count_scan occurrences starts_with].
    destruct (N.eqb_spec 92 a) as [<-|Ha]; cbn [andb].
    + destruct tl as [|b tl']; [reflexivity|].
      destruct (N.eqb_spec 117 b) as [<-|Hb]; cbn [andb].
      * cbn [List.length Nat.sub count_scan occurrences starts_with
               N.eqb Pos.eqb andb int_of_bool].
        simpl in Hn. rewrite IH by lia. lia.
      * rewrite IH by lia. cbn [int_of_bool]. lia.
    + rewrite IH by lia. cbn [int_of_bool]. lia.
Qed.

Lemma str_count_marker (s : pystr) :
  str_count s (py "\u") = occurrences (py "\u") s.
Proof.
  change (str_count s (py "\u")) with (count_scan (py "\u") 0 s).
  apply (count_scan_marker (List.length s)). lia.
Qed.

Lemma occurrences_nonneg (sub s : pystr) : 0 <= occurrences sub s.
Proof.
  induction s as [|a s IH]; simpl;
    destruct (starts_with sub _); unfold int_of_bool; lia.
Qed.

Lemma starts_with_app (sub rest : pystr) :
  starts_with sub (sub ++ rest) = true.
Proof.
  induction sub as [|a sub IH]; simpl; [reflexivity|].
  now rewrite N.eqb_refl, IH.
Qed.

Lemma starts_with_split (sub s : pystr) :
  starts_with sub s = true -> exists rest, s = sub ++ rest.
Proof.
  revert s; induction sub as [|a sub IH]; intros s H.
  - now exists s.
  - destruct s as [|b s]; [discriminate|]. simpl in H.
    apply andb_prop in H as [Hab Hs]. apply N.eqb_eq in Hab as ->.
    destruct (IH _ Hs) as [rest ->]. now exists rest.
Qed.

Lemma str_in_here (sub s : pystr) :
  starts_with sub s = true -> str_in sub s = true.
Proof.
  intros H. destruct s; simpl; rewrite H; reflexivity.
Qed.

(** [sub in s] holds exactly when [s] is [pre ++ sub ++ post]. *)
Lemma str_in_spec (sub s : pystr) :
  str_in sub s = true <-> exists pre post, s = pre ++ sub ++ post.
Proof.
  split.
  - induction s as [|a s IH]; simpl; intros H.
    + rewrite orb_false_r in H.
      destruct (starts_with_split _ _ H) as [rest ->]. now exists [], rest.
    + apply orb_prop in H as [H|H].
      * destruct (starts_with_split _ _ H) as [rest ->].
        now exists [], rest.
      * destruct (IH H) as (pre & post & ->). now exists (a :: pre), post.
  - intros (pre & post & ->).
    induction pre as [|a pre IH].
    + cbn [app]. apply str_in_here, starts_with_app.
    + simpl. rewrite IH. apply orb_true_r.
Qed.

End StringFacts.

(** ** The classifier: symbols and interval keys *)

(** C8.  For every text, [count_emoji] returns the number of occurrences of
    the marker [\u] divided by four (integer division) plus the number of
    characters that are keys of the symbol table; the two counts are added
    without any deduplication and the result is not negative. *)
Theorem count_emoji_additive (UNICODE_EMOJI : list pystr) (s : pystr) :
  count_emoji UNICODE_EMOJI s =
    occurrences (py "\u") s / 4 +
    Z.of_nat (List.length (filter (is_emoji UNICODE_EMOJI) s)) /\
  (forall c, is_emoji UNICODE_EMOJI c = true <-> In [c] UNICODE_EMOJI) /\
  0 <= count_emoji UNICODE_EMOJI s.
Proof.
  assert (E : count_emoji UNICODE_EMOJI s =
              occurrences (py "\u") s / 4 +
              Z.of_nat (List.length (filter (is_emoji UNICODE_EMOJI) s))).
  { unfold count_emoji.
    rewrite str_count_marker, fold_left_tally. lia. }
  split; [exact E | split].
  - intros c. unfold is_emoji.
    destruct (in_dec pystr_eq_dec [c] UNICODE_EMOJI); split;
      intros; try discriminate; try reflexivity; tauto.
  - rewrite E.
    pose proof (occurrences_nonneg (py "\u") s) as Hocc.
    assert (0 <= occurrences (py "\u") s / 4) by (apply Z.div_pos; lia).
    lia.
Qed.

Section IntervalKeys.

Lemma checked_on_range (check : Z -> bool) (lo len : Z) :
  forallb (fun n => check (lo + Z.of_nat n)) (seq 0 (Z.to_nat len)) = true ->
  forall z, lo <= z < lo + len -> check z = true.
Proof.
  intros H z Hz. rewrite forallb_forall in H.
  specialize (H (Z.to_nat (z - lo))).
  replace (lo + Z.of_nat (Z.to_nat (z - lo))) with z in H by lia.
  apply H, in_seq. lia.
Qed.

Lemma same_text_eq (a b : pystr) : same_text a b = true -> a = b.
Proof.
  unfold same_text. destruct (pystr_eq_dec a b); [trivial | discriminate].
Qed.

(** A year of four digits is printed as these four digits. *)
Lemma str_of_year (y : Z) :
  1000 <= y <= 9999 ->
  str_of_int y = [digit_at y 3; digit_at y 2; digit_at y 1; digit_at y 0].
Proof.
  intros Hy. apply same_text_eq.
  apply (checked_on_range
           (fun y => same_text (str_of_int y)
                       [digit_at y 3; digit_at y 2;
                        digit_at y 1; digit_at y 0])
           1000 9000); [vm_compute; reflexivity | lia].
Qed.

(** A month is printed as two digits, with a leading zero below ten. *)
Lemma fmt_02d_month (m : Z) :
  1 <= m <= 12 -> fmt_02d m = [digit_at m 1; digit_at m 0].
Proof.
  intros Hm. apply same_text_eq.
  apply (checked_on_range
           (fun m => same_text (fmt_02d m) [digit_at m 1; digit_at m 0])
           1 12); [vm_compute; reflexivity | lia].
Qed.

End IntervalKeys.






(** ** Facts about dictionaries *)

Section DictFacts.
Context {K V : Type}.
Variable dec : forall a b : K, {a = b} + {a <> b}.

Lemma get_set_same (k : K) (v : V) (d : dict K V) :
  get dec k (set dec k v d) = Some v.
Proof.
  induction d as [|[k' v'] d IH]; simpl.
  - now destruct (dec k k).
  - destruct (dec k k') as [E|N] eqn:D; simpl; rewrite D; auto.
Qed.

Lemma get_set_other (k k' : K) (v : V) (d : dict K V) :
  k <> k' -> get dec k (set dec k' v d) = get dec k d.
Proof.
  intros N. induction d as [|[k0 v0] d IH]; simpl.
  - destruct (dec k k'); [contradiction | reflexivity].
  - destruct (dec k' k0) as [E|N']; simpl.
    + subst k0. destruct (dec k k'); [contradiction | reflexivity].
    + destruct (dec k k0); auto.
Qed.

Lemma set_set (k : K) (v v' : V) (d : dict K V) :
  set dec k v (set dec k v' d) = set dec k v d.
Proof.
  induction d as [|[k0 v0] d IH]; simpl.
  - now destruct (dec k k).
  - destruct (dec k k0) as [E|N] eqn:D; simpl; rewrite D; [|rewrite IH];
      reflexivity.
Qed.

Lemma set_get_id (k : K) (v : V) (d : dict K V) :
  get dec k d = Some v -> set dec k v d = d.
Proof.
  induction d as [|[k0 v0] d IH]; simpl; [discriminate|].
  destruct (dec k k0); intros H.
  - now inversion H.
  - now rewrite IH.
Qed.

Lemma keys_set (k : K) (v v0 : V) (d : dict K V) :
  get dec k d = Some v0 -> keys (set dec k v d) = keys d.
Proof.
  unfold keys. induction d as [|[k0 v1] d IH]; simpl; [discriminate|].
  destruct (dec k k0); simpl; [reflexivity|].
  intros H. now rewrite IH.
Qed.

Lemma get_in_keys (k : K) (d : dict K V) :
  In k (keys d) <-> exists v, get dec k d = Some v.
Proof.
  induction d as [|[k0 v0] d IH]; simpl.
  - split; [tauto | intros [v H]; discriminate].
  - destruct (dec k k0) as [->|N].
    + split; [intros _; now exists v0 | auto].
    + rewrite <- IH. split; [intros [E|H]; [congruence | exact H] | auto].
Qed.

(** Replacing the value of a key by [v'] moves a sum over the dictionary
    by the difference of the two summands. *)
Lemma sum_set (f : V -> Z) (k : K) (v' : V) (d : dict K V) :
  fold_right (fun '(_, v) acc => f v + acc) 0 (set dec k v' d) =
  fold_right (fun '(_, v) acc => f v + acc) 0 d
  + f v' - match get dec k d with Some v => f v | None => 0 end.
Proof.
  induction d as [|[k0 v0] d IH]; simpl.
  - lia.
  - destruct (dec k k0); simpl; [lia | rewrite IH; lia].
Qed.

End DictFacts.

(** ** Facts about profiles *)

Section ProfileFacts.

Lemma profile_of_get {A : Type} (stats : stats_table A) (name : pystr)
    (p : profile A) :
  profile_of stats name = Ok p <->
  get pystr_eq_dec name stats = Some (Person p).
Proof.
  unfold profile_of, subscript.
  destruct (get pystr_eq_dec name stats) as [[q|l]|]; simpl;
    split; intros H; inversion H; reflexivity.
Qed.

Lemma profile_of_set_same {A : Type} (stats : stats_table A)
    (name : pystr) (p : profile A) :
  profile_of (set pystr_eq_dec name (Person p) stats) name = Ok p.
Proof.
  apply profile_of_get, get_set_same.
Qed.

Lemma profile_of_set_other {A : Type} (stats : stats_table A)
    (name other : pystr) (e : slot A) :
  name <> other ->
  profile_of (set pystr_eq_dec other e stats) name = profile_of stats name.
Proof.
  intros N. unfold profile_of, subscript. now rewrite get_set_other.
Qed.

Lemma upd_general_run (name : pystr) (f : counters Z -> counters Z)
    (stats : stats_table Z) (p : profile Z) :
  profile_of stats name = Ok p ->
  upd_general name f stats =
  Ok (set pystr_eq_dec name
        (Person {| general := f (general p); int := int p |}) stats).
Proof.
  intros H. unfold upd_general. now rewrite H.
Qed.

Lemma upd_interval_run (name : pystr) (interval : interval_key)
    (f : counters Z -> counters Z) (stats : stats_table Z)
    (p : profile Z) (c : counters Z) :
  profile_of stats name = Ok p ->
  get interval_key_eq_dec interval (int p) = Some c ->
  upd_interval name interval f stats =
  Ok (set pystr_eq_dec name
        (Person {| general := general p;
                   int := set interval_key_eq_dec interval (f c) (int p) |})
        stats).
Proof.
  intros H Hc. unfold upd_interval, subscript. now rewrite H; simpl; rewrite Hc.
Qed.

Lemma counters_at_get (interval : interval_key)
    (d : dict interval_key (counters Z)) (c : counters Z) :
  get interval_key_eq_dec interval d = Some c -> counters_at interval d = c.
Proof.
  intros H. unfold counters_at. now rewrite H.
Qed.

Lemma counters_at_applied (interval : interval_key)
    (f : counters Z -> counters Z) (p : profile Z) :
  get interval_key_eq_dec interval (int (applied interval f p)) =
  Some (f (counters_at interval (int p))).
Proof.
  apply get_set_same.
Qed.

Lemma applied_applied (interval : interval_key)
    (f g : counters Z -> counters Z) (p : profile Z) :
  applied interval f (applied interval g p) =
  applied interval (fun c => f (g c)) p.
Proof.
  unfold applied at 1 3. f_equal.
  rewrite (counters_at_get _ _ _ (counters_at_applied interval g p)).
  cbn [applied int]. apply set_set.
Qed.

(** With its interval present, a profile is left as it is by the empty
    update. *)
Lemma applied_nothing (interval : interval_key) (p : profile Z)
    (c : counters Z) :
  get interval_key_eq_dec interval (int p) = Some c ->
  applied interval (fun c => c) p = p.
Proof.
  intros H. unfold applied. rewrite (counters_at_get _ _ _ H).
  rewrite (set_get_id _ _ _ _ H). now destruct p.
Qed.

Lemma ensure_interval_run (name : pystr) (interval : interval_key)
    (stats : stats_table Z) (p : profile Z) :
  profile_of stats name = Ok p ->
  ensure_interval name interval stats =
  Ok (set pystr_eq_dec name
        (Person (applied interval (fun c => c) p)) stats).
Proof.
  intros H. unfold ensure_interval, has_key. rewrite H. cbn [bind].
  destruct (get interval_key_eq_dec interval (int p)) as [c|] eqn:E.
  - rewrite (applied_nothing _ _ _ E).
    now rewrite (set_get_id _ _ _ _ (proj1 (profile_of_get _ _ _) H)).
  - unfold assign_interval. rewrite H. cbn [bind].
    unfold applied, counters_at. now rewrite E.
Qed.

End ProfileFacts.

(** Runs a chain of updates of one profile through to a single assignment. *)
Ltac run_updates :=
  repeat first
    [ erewrite upd_general_run by
        first [apply profile_of_set_same | eassumption]
    | erewrite upd_interval_run by
        first [ apply profile_of_set_same
              | cbn [int general]; apply get_set_same
              | eassumption ]
    | rewrite set_set
    | progress cbn [bind general int] ].

Section HandlerFacts.
Variable UNICODE_EMOJI : list pystr.

Lemma tally_counts (ps : list Msg.photo) :
  tally ps =
  (Z.of_nat (List.length (filter (fun p => negb (is_gif p)) ps)),
   Z.of_nat (List.length (filter is_gif ps))).
Proof.
  unfold tally.
  assert (G : forall ps a b,
             fold_left
               (fun '(photos, gifs) p =>
                  if is_gif p then (photos, gifs + 1)
                  else (photos + 1, gifs)) ps (a, b) =
             (a + Z.of_nat (List.length
                              (filter (fun p => negb (is_gif p)) ps)),
              b + Z.of_nat (List.length (filter is_gif ps)))).
  { clear ps. induction ps as [|p ps IH]; intros a b; simpl.
    - f_equal; lia.
    - destruct (is_gif p); simpl; rewrite IH; f_equal; lia. }
  now rewrite G.
Qed.

Lemma handle_content_run (stats : stats_table Z) (interval : interval_key)
    (msg : Msg.message) (p : profile Z) (c : counters Z) :
  profile_of stats (Msg.sender_name msg) = Ok p ->
  get interval_key_eq_dec interval (int p) = Some c ->
  truthy (Msg.content msg) = true ->
  handle_content UNICODE_EMOJI stats interval msg =
  Ok (set pystr_eq_dec (Msg.sender_name msg)
        (Person
           (applied interval
              (content_update UNICODE_EMOJI
                 (get_or_empty (Msg.content msg))) p))
        stats).
Proof.
  intros Hp Hc Ht. unfold handle_content.
  destruct (Msg.content msg) as [content|]; [|discriminate].
  cbn [field bind get_or_empty]. run_updates.
  unfold applied, content_update. now rewrite (counters_at_get _ _ _ Hc).
Qed.

Lemma handle_photos_and_gifs_run (stats : stats_table Z)
    (interval : interval_key) (msg : Msg.message) (p : profile Z)
    (c : counters Z) :
  profile_of stats (Msg.sender_name msg) = Ok p ->
  get interval_key_eq_dec interval (int p) = Some c ->
  handle_photos_and_gifs stats interval msg =
  Ok (set pystr_eq_dec (Msg.sender_name msg)
        (Person
           (applied interval
              (photos_update
                 (get_or_empty (Msg.photos msg) ++
                  get_or_empty (Msg.gifs msg))) p))
        stats).
Proof.
  intros Hp Hc. unfold handle_photos_and_gifs.
  rewrite tally_counts. run_updates.
  unfold applied, photos_update. now rewrite (counters_at_get _ _ _ Hc).
Qed.

Lemma handle_videos_run (stats : stats_table Z) (interval : interval_key)
    (msg : Msg.message) (p : profile Z) (c : counters Z) :
  profile_of stats (Msg.sender_name msg) = Ok p ->
  get interval_key_eq_dec interval (int p) = Some c ->
  truthy (Msg.videos msg) = true ->
  handle_videos stats interval msg =
  Ok (set pystr_eq_dec (Msg.sender_name msg)
        (Person
           (applied interval
              (add_vids_sent
                 (Z.of_nat (List.length (get_or_empty (Msg.videos msg)))))
              p))
        stats).
Proof.
  intros Hp Hc Ht. unfold handle_videos.
  destruct (Msg.videos msg) as [videos|]; [|discriminate].
  rewrite Hp. cbn [field bind get_or_empty].
  erewrite upd_general_run by eassumption. cbn [bind].
  rewrite profile_of_set_same. cbn [bind int]. unfold subscript at 1.
  rewrite Hc. cbn [bind]. run_updates.
  unfold applied. now rewrite (counters_at_get _ _ _ Hc).
Qed.

Lemma handle_links_run (stats : stats_table Z) (interval : interval_key)
    (msg : Msg.message) (p : profile Z) (c : counters Z) :
  profile_of stats (Msg.sender_name msg) = Ok p ->
  get interval_key_eq_dec interval (int p) = Some c ->
  handle_links stats interval msg =
  Ok (set pystr_eq_dec (Msg.sender_name msg)
        (Person (applied interval (add_links_sent 1) p)) stats).
Proof.
  intros Hp Hc. unfold handle_links. run_updates.
  unfold applied. now rewrite (counters_at_get _ _ _ Hc).
Qed.

End HandlerFacts.

(** ** Reactions *)

Section ReactionFacts.

Lemma applied_ext (interval : interval_key)
    (f g : counters Z -> counters Z) (p : profile Z) :
  (forall c, f c = g c) -> applied interval f p = applied interval g p.
Proof.
  intros E. unfold applied. now rewrite !E.
Qed.

Lemma add_reactions_add (m n : Z) (c : counters Z) :
  add_reactions m (add_reactions n c) = add_reactions (n + m) c.
Proof.
  unfold add_reactions; cbn. f_equal. lia.
Qed.

(** One pass of the loop of [handle_reactions]. *)
Lemma reaction_run (actor : pystr) (interval : interval_key)
    (stats : stats_table Z) (q : profile Z) :
  profile_of stats actor = Ok q ->
  (stats <- ensure_interval actor interval stats ;;
   stats <- upd_general actor (add_reactions 1) stats ;;
   upd_interval actor interval (add_reactions 1) stats) =
  Ok (set pystr_eq_dec actor
        (Person (applied interval (add_reactions 1) q)) stats).
Proof.
  intros Hq. rewrite (ensure_interval_run _ _ _ _ Hq). cbn [bind].
  erewrite upd_general_run by apply profile_of_set_same. cbn [bind].
  erewrite upd_interval_run;
    [ | apply profile_of_set_same | cbn [int]; apply counters_at_applied ].
  rewrite !set_set. cbn [general int applied].
  unfold applied. now rewrite set_set.
Qed.

Lemma credited_once_more (k : Z) (interval : interval_key)
    (q : profile Z) :
  0 <= k ->
  credited k interval (applied interval (add_reactions 1) q) =
  credited (1 + k) interval q.
Proof.
  intros Hk. unfold credited.
  destruct (Z.eqb_spec k 0) as [->|Hk0].
  - reflexivity.
  - destruct (Z.eqb_spec (1 + k) 0); [lia|].
    rewrite applied_applied. apply applied_ext.
    intros c. apply add_reactions_add.
Qed.

Lemma reactions_by_nonneg (name : pystr) (rs : list Msg.reaction) :
  0 <= reactions_by name rs.
Proof.
  unfold reactions_by. lia.
Qed.

Lemma reactions_by_cons (name : pystr) (r : Msg.reaction)
    (rs : list Msg.reaction) :
  reactions_by name (r :: rs) =
  (if pystr_eq_dec (Msg.actor r) name then 1 else 0) + reactions_by name rs.
Proof.
  unfold reactions_by. simpl.
  destruct (pystr_eq_dec (Msg.actor r) name); simpl List.length; lia.
Qed.

Lemma reactions_by_positive (name : pystr) (rs : list Msg.reaction) :
  In name (List.map Msg.actor rs) <-> 0 < reactions_by name rs.
Proof.
  induction rs as [|r rs IH].
  - simpl. unfold reactions_by. simpl. split; [tauto | lia].
  - rewrite reactions_by_cons. simpl.
    pose proof (reactions_by_nonneg name rs).
    destruct (pystr_eq_dec (Msg.actor r) name) as [E|N].
    + split; [lia | auto].
    + rewrite <- Z.add_0_l in IH at 1. split.
      * intros [E|H']; [contradiction | apply IH in H'; lia].
      * intros H'. right. apply IH. lia.
Qed.

(** The table after the loop, entry by entry. *)
Lemma handle_reactions_loop_run (interval : interval_key)
    (rs : list Msg.reaction) :
  forall stats : stats_table Z,
    (forall r, In r rs -> has_profile stats (Msg.actor r)) ->
    exists stats',
      handle_reactions_loop stats interval rs = Ok stats' /\
      forall name,
        get pystr_eq_dec name stats' =
        match get pystr_eq_dec name stats with
        | Some (Person p) =>
            Some (Person (credited (reactions_by name rs) interval p))
        | other => other
        end.
Proof.
  induction rs as [|r rs IH]; intros stats Hrs.
  - exists stats. split; [reflexivity|].
    intros name. destruct (get pystr_eq_dec name stats) as [[p|l]|];
      reflexivity.
  - destruct (Hrs r (or_introl eq_refl)) as [q Hq].
    apply profile_of_get in Hq.
    cbn [handle_reactions_loop].
    pose proof (reaction_run (Msg.actor r) interval stats q Hq) as Hrun.
    set (once := set pystr_eq_dec (Msg.actor r)
                   (Person (applied interval (add_reactions 1) q)) stats)
      in *.
    destruct (IH once) as (stats' & Hloop & Hget).
    { intros r' Hr'. unfold has_profile, once.
      destruct (pystr_eq_dec (Msg.actor r') (Msg.actor r)) as [E|N].
      - rewrite E, get_set_same. eauto.
      - rewrite get_set_other by exact N. apply Hrs. now right. }
    exists stats'. split.
    + destruct (ensure_interval (Msg.actor r) interval stats)
        as [s1|e] eqn:E1; cbn [bind] in Hrun |- *; [|discriminate].
      destruct (upd_general (Msg.actor r) (add_reactions 1) s1)
        as [s2|e] eqn:E2; cbn [bind] in Hrun |- *; [|discriminate].
      rewrite Hrun. cbn [bind]. exact Hloop.
    + intros name. rewrite Hget, reactions_by_cons. unfold once.
      destruct (pystr_eq_dec (Msg.actor r) name) as [E|N].
      * subst name. rewrite get_set_same.
        apply profile_of_get in Hq. rewrite Hq.
        now rewrite credited_once_more by apply reactions_by_nonneg.
      * rewrite get_set_other by congruence.
        destruct (get pystr_eq_dec name stats) as [[p|l]|]; reflexivity.
Qed.

Lemma credited_reactions (k : Z) (interval : interval_key)
    (p : profile Z) :
  reactions (general (credited k interval p)) = reactions (general p) + k /\
  reactions (counters_at interval (int (credited k interval p))) =
    reactions (counters_at interval (int p)) + k /\
  (k <> 0 ->
   has_key interval_key_eq_dec interval (int (credited k interval p))
   = true).
Proof.
  unfold credited. destruct (Z.eqb_spec k 0) as [->|Hk].
  - repeat split; lia.
  - split; [reflexivity | split].
    + now rewrite (counters_at_get _ _ _ (counters_at_applied _ _ _)).
    + intros _. unfold has_key. now rewrite counters_at_applied.
Qed.

End ReactionFacts.

(** C2.  For a message with reactions whose actors all have a profile,
    [handle_reactions] adds, for every name, the number of reactions made by
    that name to the name's reaction counter, both in the general counters
    and in the counters of the message's interval, which it creates when the
    actor had none; a profile whose name is not among the actors, the
    sender's included, is left exactly as it was. *)
Theorem reactions_credit_the_actor (stats : stats_table Z)
    (interval : interval_key) (msg : Msg.message)
    (rs : list Msg.reaction) :
  Msg.reactions msg = Some rs ->
  (forall r, In r rs -> has_profile stats (Msg.actor r)) ->
  exists stats',
    handle_reactions stats interval msg = Ok stats' /\
    forall name p,
      get pystr_eq_dec name stats = Some (Person p) ->
      exists p',
        get pystr_eq_dec name stats' = Some (Person p') /\
        reactions (general p') =
          reactions (general p) + reactions_by name rs /\
        reactions (counters_at interval (int p')) =
          reactions (counters_at interval (int p)) + reactions_by name rs /\
        (In name (List.map Msg.actor rs) ->
         has_key interval_key_eq_dec interval (int p') = true) /\
        (~ In name (List.map Msg.actor rs) -> p' = p).
Proof.
  intros Hmsg Hrs. unfold handle_reactions. rewrite Hmsg. cbn [field bind].
  destruct (handle_reactions_loop_run interval rs stats Hrs)
    as (stats' & Hloop & Hget).
  exists stats'. split; [exact Hloop|].
  intros name p Hp.
  exists (credited (reactions_by name rs) interval p).
  rewrite Hget, Hp.
  destruct (credited_reactions (reactions_by name rs) interval p)
    as (Hg & Hi & Hk).
  repeat split; try assumption.
  - intros Hin. apply Hk. apply reactions_by_positive in Hin. lia.
  - intros Hout. unfold credited.
    destruct (Z.eqb_spec (reactions_by name rs) 0) as [E|N]; [reflexivity|].
    exfalso. apply Hout. apply reactions_by_positive.
    pose proof (reactions_by_nonneg name rs). lia.
Qed.

(** ** The effect of updates on the invariants *)

Section UpdateFacts.
Variable UNICODE_EMOJI : list pystr.

Lemma interval_msgs_sent_set (interval : interval_key) (c' : counters Z)
    (d : dict interval_key (counters Z)) :
  interval_msgs_sent (set interval_key_eq_dec interval c' d) =
  interval_msgs_sent d + msgs_sent c'
  - msgs_sent (counters_at interval d).
Proof.
  unfold interval_msgs_sent.
  rewrite (sum_set interval_key_eq_dec msgs_sent).
  unfold counters_at.
  destruct (get interval_key_eq_dec interval d); reflexivity.
Qed.

(** An update applied to both levels keeps the difference between the
    general count and the sum over the intervals. *)
Lemma applied_balance (interval : interval_key) (delta : Z)
    (f : counters Z -> counters Z) (p : profile Z) :
  moves_msgs_sent delta f ->
  msgs_sent (general (applied interval f p)) = msgs_sent (general p) + delta
  /\ interval_msgs_sent (int (applied interval f p)) =
     interval_msgs_sent (int p) + delta.
Proof.
  intros Hf. cbn [applied general int].
  rewrite interval_msgs_sent_set, !Hf. lia.
Qed.

Lemma total_msgs_sent_set (stats : stats_table Z) (name : pystr)
    (p p' : profile Z) :
  name <> intervals_key ->
  get pystr_eq_dec name stats = Some (Person p) ->
  total_msgs_sent (set pystr_eq_dec name (Person p') stats) =
  total_msgs_sent stats + msgs_sent (general p') - msgs_sent (general p).
Proof.
  intros Hn. induction stats as [|[k e] stats IH]; simpl; [discriminate|].
  destruct (pystr_eq_dec name k) as [<-|N]; simpl.
  - intros H. inversion H; subst e.
    destruct (pystr_eq_dec name intervals_key); [contradiction | lia].
  - intros H. rewrite (IH H).
    destruct (pystr_eq_dec k intervals_key); [lia|].
    destruct e; lia.
Qed.

Lemma total_msgs_sent_set_intervals (stats : stats_table Z)
    (e : slot Z) :
  total_msgs_sent (set pystr_eq_dec intervals_key e stats) =
  total_msgs_sent stats.
Proof.
  unfold total_msgs_sent.
  induction stats as [|[k e0] stats IH]; simpl.
  - now destruct (pystr_eq_dec intervals_key intervals_key).
  - destruct (pystr_eq_dec intervals_key k) as [<-|N]; simpl.
    + now destruct (pystr_eq_dec intervals_key intervals_key).
    + now rewrite IH.
Qed.

Lemma evolves_refl (l : list interval_key) (stats : stats_table Z) :
  get pystr_eq_dec intervals_key stats = Some (Intervals l) ->
  evolves 0 l l stats stats.
Proof.
  intros H. unfold evolves. repeat split; auto; lia.
Qed.

Lemma evolves_trans (a b : Z) (l0 l1 l2 : list interval_key)
    (s0 s1 s2 : stats_table Z) :
  evolves a l0 l1 s0 s1 -> evolves b l1 l2 s1 s2 ->
  evolves (a + b) l0 l2 s0 s2.
Proof.
  intros (H0 & _ & Hc & Ht & Hp & Hn & Hk)
         (_ & H2 & Hc' & Ht' & Hp' & Hn' & Hk').
  unfold evolves.
  split; [exact H0|]. split; [exact H2|]. split; [auto|].
  split; [lia|].
  split; [intros name; rewrite (Hp name); apply Hp'|].
  split; [intros name; rewrite (Hn name); apply Hn' | congruence].
Qed.

(** Noting an interval changes the list of intervals only. *)
Lemma evolves_note (l l' : list interval_key) (stats : stats_table Z) :
  get pystr_eq_dec intervals_key stats = Some (Intervals l) ->
  evolves 0 l l' stats
    (set pystr_eq_dec intervals_key (Intervals l') stats).
Proof.
  intros H. unfold evolves.
  assert (G : forall name, name <> intervals_key ->
              get pystr_eq_dec name
                (set pystr_eq_dec intervals_key (Intervals l') stats) =
              get pystr_eq_dec name stats)
    by (intros; now apply get_set_other).
  assert (D : forall name, {name = intervals_key} + {name <> intervals_key})
    by (intros; apply pystr_eq_dec).
  repeat split; auto.
  - apply get_set_same.
  - intros Hc name p Hp. destruct (D name) as [->|N].
    + rewrite get_set_same in Hp. discriminate.
    + rewrite G in Hp by exact N. exact (Hc _ _ Hp).
  - rewrite total_msgs_sent_set_intervals. lia.
  - intros [p Hp]. destruct (D name) as [->|N]; [congruence|].
    exists p. now rewrite G.
  - intros [p Hp]. destruct (D name) as [->|N].
    + rewrite get_set_same in Hp. discriminate.
    + exists p. now rewrite G in Hp.
  - intros Hn. destruct (D name) as [->|N]; [congruence | now rewrite G].
  - intros Hn. destruct (D name) as [->|N].
    + rewrite get_set_same in Hn. discriminate.
    + now rewrite G in Hn.
  - eapply keys_set, H.
Qed.

(** Applying an update to an existing profile. *)
Lemma evolves_applied (l : list interval_key) (stats : stats_table Z)
    (name : pystr) (p : profile Z) (interval : interval_key)
    (delta : Z) (f : counters Z -> counters Z) :
  get pystr_eq_dec intervals_key stats = Some (Intervals l) ->
  profile_of stats name = Ok p ->
  moves_msgs_sent delta f ->
  evolves delta l l stats
    (set pystr_eq_dec name (Person (applied interval f p)) stats).
Proof.
  intros Hl Hp Hf. apply profile_of_get in Hp.
  assert (Hn : name <> intervals_key) by congruence.
  destruct (applied_balance interval delta f p Hf) as [Hg Hi].
  assert (G : forall other, other <> name ->
              get pystr_eq_dec other
                (set pystr_eq_dec name (Person (applied interval f p))
                   stats) =
              get pystr_eq_dec other stats)
    by (intros; now apply get_set_other).
  assert (D : forall other, {other = name} + {other <> name})
    by (intros; apply pystr_eq_dec).
  unfold evolves. repeat split; auto.
  - rewrite G by congruence. exact Hl.
  - intros Hc other q Hq. destruct (D other) as [->|N].
    + rewrite get_set_same in Hq. inversion Hq; subst q.
      rewrite Hg, Hi. rewrite (Hc name p Hp). reflexivity.
    + rewrite G in Hq by exact N. exact (Hc _ _ Hq).
  - rewrite (total_msgs_sent_set stats name p _ Hn Hp). lia.
  - intros [q Hq]. destruct (D name0) as [->|N].
    + eexists. apply get_set_same.
    + exists q. now rewrite G.
  - intros [q Hq]. destruct (D name0) as [->|N].
    + now exists p.
    + exists q. now rewrite G in Hq.
  - intros Hnone. destruct (D name0) as [->|N]; [congruence | now rewrite G].
  - intros Hnone. destruct (D name0) as [->|N].
    + rewrite get_set_same in Hnone. discriminate.
    + now rewrite G in Hnone.
  - eapply keys_set, Hp.
Qed.

End UpdateFacts.

(** ** One step of the fold *)

Section StepFacts.
Variable UNICODE_EMOJI : list pystr.

Lemma moves_sender_update (msg : Msg.message) :
  moves_msgs_sent (int_of_bool (truthy (Msg.content msg)))
    (sender_update UNICODE_EMOJI msg).
Proof.
  intros c. unfold sender_update.
  destruct (truthy (Msg.content msg));
    destruct (truthy (Msg.photos msg) || truthy (Msg.gifs msg));
    destruct (truthy (Msg.videos msg)); cbn; lia.
Qed.

Lemma moves_add_reactions (n : Z) : moves_msgs_sent 0 (add_reactions n).
Proof. intros c. cbn. lia. Qed.

Lemma moves_add_links_sent (n : Z) : moves_msgs_sent 0 (add_links_sent n).
Proof. intros c. cbn. lia. Qed.

(** A guarded handler whose effect on a profile is known. *)
Lemma when_run (cond : bool) (handler : result (stats_table Z))
    (stats : stats_table Z) (name : pystr) (interval : interval_key)
    (f : counters Z -> counters Z) (q : profile Z) (c : counters Z) :
  profile_of stats name = Ok q ->
  get interval_key_eq_dec interval (int q) = Some c ->
  (cond = true ->
   handler =
   Ok (set pystr_eq_dec name (Person (applied interval f q)) stats)) ->
  when cond handler stats =
  Ok (set pystr_eq_dec name
        (Person (applied interval (fun c => if cond then f c else c) q))
        stats).
Proof.
  intros Hq Hc Hh. destruct cond; cbn [when].
  - rewrite Hh by reflexivity. reflexivity.
  - rewrite (applied_nothing _ _ _ Hc).
    now rewrite (set_get_id _ _ _ _ (proj1 (profile_of_get _ _ _) Hq)).
Qed.

Lemma reactions_when (stats : stats_table Z) (interval : interval_key)
    (msg : Msg.message) :
  when (truthy (Msg.reactions msg))
    (handle_reactions stats interval msg) stats =
  handle_reactions_loop stats interval (get_or_empty (Msg.reactions msg)).
Proof.
  unfold handle_reactions.
  destruct (Msg.reactions msg) as [[|r rs]|]; reflexivity.
Qed.

Lemma first_seen_one (l : list interval_key) (interval : interval_key) :
  first_seen l [interval] =
  if in_dec interval_key_eq_dec interval l then l else l ++ [interval].
Proof.
  cbn. now destruct (in_dec interval_key_eq_dec interval l).
Qed.

Lemma note_interval_run (interval : interval_key) (stats : stats_table Z)
    (l : list interval_key) :
  get pystr_eq_dec intervals_key stats = Some (Intervals l) ->
  note_interval interval stats =
  Ok (set pystr_eq_dec intervals_key
        (Intervals (first_seen l [interval])) stats).
Proof.
  intros H. unfold note_interval, subscript. rewrite H. cbn [bind].
  rewrite first_seen_one.
  destruct (in_dec interval_key_eq_dec interval l); [|reflexivity].
  now rewrite (set_get_id _ _ _ _ H).
Qed.

(** The step on a table that holds the list of intervals and a profile
    of the sender: the sender's profile takes the message's update, then
    come the reactions and the link. *)
Lemma analyze_step_run (mode : interval_mode) (stats : stats_table Z)
    (msg : Msg.message) (l : list interval_key) (p : profile Z) :
  get pystr_eq_dec intervals_key stats = Some (Intervals l) ->
  profile_of stats (Msg.sender_name msg) = Ok p ->
  analyze_step UNICODE_EMOJI mode stats msg =
  (let interval := interval_of mode msg in
   let noted :=
     set pystr_eq_dec intervals_key
       (Intervals (first_seen l [interval])) stats in
   let sent :=
     set pystr_eq_dec (Msg.sender_name msg)
       (Person (applied interval (sender_update UNICODE_EMOJI msg) p))
       noted in
   stats <- handle_reactions_loop sent interval
              (get_or_empty (Msg.reactions msg)) ;;
   when (truthy (Msg.share msg)) (handle_links stats interval msg) stats).
Proof.
  intros Hl Hp. unfold analyze_step. fold (interval_of mode msg).
  set (interval := interval_of mode msg).
  set (name := Msg.sender_name msg) in *.
  assert (Hn : name <> intervals_key).
  { apply profile_of_get in Hp. congruence. }
  rewrite (note_interval_run _ _ _ Hl). cbn [bind].
  set (noted := set pystr_eq_dec intervals_key _ stats).
  assert (Hp' : profile_of noted name = Ok p).
  { unfold noted. now rewrite profile_of_set_other. }
  rewrite (ensure_interval_run _ _ _ _ Hp'). cbn [bind].
  erewrite when_run;
    [ | apply profile_of_set_same | apply counters_at_applied
      | intros Ht; eapply handle_content_run;
        [ apply profile_of_set_same | apply counters_at_applied
        | exact Ht ] ].
  cbn [bind]. rewrite set_set, applied_applied.
  erewrite when_run;
    [ | apply profile_of_set_same | apply counters_at_applied
      | intros Ht; eapply handle_photos_and_gifs_run;
        [ apply profile_of_set_same | apply counters_at_applied ] ].
  cbn [bind]. rewrite set_set, applied_applied.
  erewrite when_run;
    [ | apply profile_of_set_same | apply counters_at_applied
      | intros Ht; eapply handle_videos_run;
        [ apply profile_of_set_same | apply counters_at_applied
        | exact Ht ] ].
  cbn [bind]. rewrite set_set, applied_applied.
  rewrite reactions_when.
  match goal with
  | |- context [applied interval ?f p] =>
      rewrite (applied_ext interval f (sender_update UNICODE_EMOJI msg) p)
  end; [reflexivity|].
  intros c. unfold sender_update.
  destruct (truthy (Msg.content msg));
    destruct (truthy (Msg.photos msg) || truthy (Msg.gifs msg));
    destruct (truthy (Msg.videos msg)); reflexivity.
Qed.

End StepFacts.

Section StepEffects.
Variable UNICODE_EMOJI : list pystr.

Lemma handle_reactions_loop_cons (stats : stats_table Z)
    (interval : interval_key) (r : Msg.reaction)
    (rs : list Msg.reaction) (q : profile Z) :
  profile_of stats (Msg.actor r) = Ok q ->
  handle_reactions_loop stats interval (r :: rs) =
  handle_reactions_loop
    (set pystr_eq_dec (Msg.actor r)
       (Person (applied interval (add_reactions 1) q)) stats)
    interval rs.
Proof.
  intros Hq. cbn [handle_reactions_loop].
  pose proof (reaction_run (Msg.actor r) interval stats q Hq) as Hrun.
  destruct (ensure_interval (Msg.actor r) interval stats)
    as [s1|e] eqn:E1; cbn [bind] in Hrun |- *; [|discriminate].
  destruct (upd_general (Msg.actor r) (add_reactions 1) s1)
    as [s2|e] eqn:E2; cbn [bind] in Hrun |- *; [|discriminate].
  now rewrite Hrun.
Qed.

Lemma handle_reactions_loop_stops (stats : stats_table Z)
    (interval : interval_key) (r : Msg.reaction)
    (rs : list Msg.reaction) (e : exn) :
  profile_of stats (Msg.actor r) = Err e ->
  handle_reactions_loop stats interval (r :: rs) = Err e.
Proof.
  intros Hq. cbn [handle_reactions_loop]. unfold ensure_interval.
  now rewrite Hq.
Qed.

Lemma handle_reactions_loop_evolves (interval : interval_key)
    (rs : list Msg.reaction) :
  forall (stats stats' : stats_table Z) (l : list interval_key),
    get pystr_eq_dec intervals_key stats = Some (Intervals l) ->
    handle_reactions_loop stats interval rs = Ok stats' ->
    evolves 0 l l stats stats'.
Proof.
  induction rs as [|r rs IH]; intros stats stats' l Hl H.
  - inversion H; subst. now apply evolves_refl.
  - destruct (profile_of stats (Msg.actor r)) as [q|e] eqn:Hq.
    + rewrite (handle_reactions_loop_cons _ _ _ _ _ Hq) in H.
      pose proof (evolves_applied l stats _ q interval 0 _ Hl Hq
                    (moves_add_reactions 1)) as Hone.
      change 0 with (0 + 0).
      eapply evolves_trans; [exact Hone|].
      apply IH; [|exact H]. apply Hone.
    + rewrite (handle_reactions_loop_stops _ _ _ _ _ Hq) in H.
      discriminate.
Qed.

Lemma handle_links_stops (stats : stats_table Z) (interval : interval_key)
    (msg : Msg.message) (q : profile Z) :
  profile_of stats (Msg.sender_name msg) = Ok q ->
  get interval_key_eq_dec interval (int q) = None ->
  handle_links stats interval msg = Err KeyError.
Proof.
  intros Hq Hc. unfold handle_links.
  rewrite (upd_general_run _ _ _ _ Hq). cbn [bind].
  unfold upd_interval. rewrite profile_of_set_same. cbn [bind int].
  unfold subscript. now rewrite Hc.
Qed.

Lemma handle_links_evolves (stats stats' : stats_table Z)
    (interval : interval_key) (msg : Msg.message)
    (l : list interval_key) :
  get pystr_eq_dec intervals_key stats = Some (Intervals l) ->
  when (truthy (Msg.share msg)) (handle_links stats interval msg) stats
  = Ok stats' ->
  evolves 0 l l stats stats'.
Proof.
  intros Hl H. destruct (truthy (Msg.share msg)); cbn [when] in H.
  - destruct (profile_of stats (Msg.sender_name msg)) as [q|e] eqn:Hq.
    + destruct (get interval_key_eq_dec interval (int q)) as [c|] eqn:Hc.
      * rewrite (handle_links_run _ _ _ _ _ Hq Hc) in H.
        inversion H; subst.
        apply evolves_applied; auto using moves_add_links_sent.
      * rewrite (handle_links_stops _ _ _ _ Hq Hc) in H. discriminate.
    + unfold handle_links, upd_general in H. rewrite Hq in H.
      discriminate.
  - inversion H; subst. now apply evolves_refl.
Qed.

(** A step stops with the exception of the sender's lookup. *)
Lemma analyze_step_stops (mode : interval_mode) (stats : stats_table Z)
    (msg : Msg.message) (l : list interval_key) (e : exn) :
  get pystr_eq_dec intervals_key stats = Some (Intervals l) ->
  profile_of stats (Msg.sender_name msg) = Err e ->
  analyze_step UNICODE_EMOJI mode stats msg = Err e.
Proof.
  intros Hl Hp. unfold analyze_step.
  rewrite (note_interval_run _ _ _ Hl). cbn [bind].
  unfold ensure_interval.
  destruct (pystr_eq_dec (Msg.sender_name msg) intervals_key) as [E|N].
  - rewrite E in *. unfold profile_of, subscript in *.
    rewrite get_set_same. rewrite Hl in Hp. cbn [bind] in Hp |- *.
    inversion Hp. reflexivity.
  - rewrite profile_of_set_other by exact N. now rewrite Hp.
Qed.

Lemma analyze_step_evolves (mode : interval_mode)
    (stats stats' : stats_table Z) (msg : Msg.message) :
  analyze_step UNICODE_EMOJI mode stats msg = Ok stats' ->
  exists l,
    evolves (int_of_bool (truthy (Msg.content msg)))
      l (first_seen l [interval_of mode msg]) stats stats'.
Proof.
  intros H.
  destruct (get pystr_eq_dec intervals_key stats) as [[q|l]|] eqn:Hl.
  - unfold analyze_step, note_interval, subscript in H. rewrite Hl in H.
    discriminate.
  - exists l.
    destruct (profile_of stats (Msg.sender_name msg)) as [p|e] eqn:Hp.
    + rewrite (analyze_step_run _ _ _ _ _ _ Hl Hp) in H. cbv zeta in H.
      set (interval := interval_of mode msg) in *.
      set (noted := set pystr_eq_dec intervals_key _ stats) in H.
      pose proof (evolves_note l (first_seen l [interval]) stats Hl)
        as Hnote.
      fold noted in Hnote.
      assert (Hp' : profile_of noted (Msg.sender_name msg) = Ok p).
      { unfold noted. rewrite profile_of_set_other; [exact Hp|].
        apply profile_of_get in Hp. congruence. }
      pose proof (evolves_applied _ noted _ p interval _ _
                    (proj1 (proj2 Hnote)) Hp'
                    (moves_sender_update UNICODE_EMOJI msg)) as Hsent.
      set (sent := set pystr_eq_dec (Msg.sender_name msg) _ noted) in *.
      destruct (handle_reactions_loop sent interval
                  (get_or_empty (Msg.reactions msg)))
        as [reacted|e] eqn:Hloop; cbn [bind] in H; [|discriminate].
      pose proof (handle_reactions_loop_evolves _ _ _ _ _
                    (proj1 (proj2 Hsent)) Hloop) as Hreacted.
      pose proof (handle_links_evolves _ _ _ _ _
                    (proj1 (proj2 Hreacted)) H) as Hlinked.
      replace (int_of_bool (truthy (Msg.content msg)))
        with (0 + (int_of_bool (truthy (Msg.content msg)) + (0 + 0)))
        by lia.
      eapply evolves_trans; [exact Hnote|].
      eapply evolves_trans; [exact Hsent|].
      eapply evolves_trans; [exact Hreacted | exact Hlinked].
    + rewrite (analyze_step_stops _ _ _ _ _ Hl Hp) in H. discriminate.
  - unfold analyze_step, note_interval, subscript in H. rewrite Hl in H.
    discriminate.
Qed.

Lemma first_seen_app (seen l l' : list interval_key) :
  first_seen seen (l ++ l') = first_seen (first_seen seen l) l'.
Proof.
  revert seen; induction l as [|x l IH]; intros seen; cbn; [reflexivity|].
  destruct (in_dec interval_key_eq_dec x seen); apply IH.
Qed.

Lemma analyze_loop_evolves (mode : interval_mode)
    (msgs : list Msg.message) :
  forall (stats stats' : stats_table Z) (l : list interval_key),
    get pystr_eq_dec intervals_key stats = Some (Intervals l) ->
    analyze_loop UNICODE_EMOJI mode stats msgs = Ok stats' ->
    evolves (text_messages msgs)
      l (first_seen l (List.map (interval_of mode) msgs)) stats stats'.
Proof.
  induction msgs as [|msg msgs IH]; intros stats stats' l Hl H.
  - inversion H; subst. now apply evolves_refl.
  - cbn [analyze_loop] in H.
    destruct (analyze_step UNICODE_EMOJI mode stats msg)
      as [next|e] eqn:Hstep; cbn [bind] in H; [|discriminate].
    destruct (analyze_step_evolves _ _ _ _ Hstep) as (l0 & Hone).
    assert (l0 = l) as -> by (destruct Hone as [H0 _]; congruence).
    pose proof (IH _ _ _ (proj1 (proj2 Hone)) H) as Hrest.
    replace (text_messages (msg :: msgs))
      with (int_of_bool (truthy (Msg.content msg)) + text_messages msgs).
    + change (List.map (interval_of mode) (msg :: msgs))
        with ([interval_of mode msg] ++ List.map (interval_of mode) msgs).
      rewrite first_seen_app.
      eapply evolves_trans; [exact Hone | exact Hrest].
    + unfold text_messages. cbn [filter].
      destruct (truthy (Msg.content msg)); cbn [List.length int_of_bool];
        lia.
Qed.

End StepEffects.

(** ** The initial table *)

Section InitialFacts.

Lemma get_comprehension {V : Type} (v : V) (names : list pystr) :
  forall (d : dict pystr V) (name : pystr),
    get pystr_eq_dec name
      (fold_left (fun d x => set pystr_eq_dec x v d) names d) =
    if in_dec pystr_eq_dec name names then Some v
    else get pystr_eq_dec name d.
Proof.
  induction names as [|x names IH]; intros d name; [reflexivity|].
  cbn [fold_left]. rewrite IH.
  destruct (in_dec pystr_eq_dec name names) as [I|NI];
    destruct (in_dec pystr_eq_dec name (x :: names)) as [I'|NI'];
    try reflexivity.
  - exfalso. apply NI'. now right.
  - destruct I' as [->|I']; [apply get_set_same | contradiction].
  - apply get_set_other. intros ->. apply NI'. now left.
Qed.

Lemma get_initial_stats (mode : interval_mode) (names : list pystr)
    (name : pystr) :
  get pystr_eq_dec name (initial_stats mode names) =
  if pystr_eq_dec name intervals_key then Some (Intervals [])
  else if in_dec pystr_eq_dec name names
       then Some (Person (create_stats mode))
       else None.
Proof.
  unfold initial_stats, dict_comprehension.
  destruct (pystr_eq_dec name intervals_key) as [->|N].
  - apply get_set_same.
  - rewrite get_set_other by exact N.
    apply (get_comprehension (Person (create_stats mode))).
Qed.

Lemma shaped_initial (mode : interval_mode) (names : list pystr) :
  shaped names (initial_stats mode names).
Proof.
  split.
  - exists []. rewrite get_initial_stats.
    now destruct (pystr_eq_dec intervals_key intervals_key).
  - intros name N. unfold has_profile. rewrite get_initial_stats.
    destruct (pystr_eq_dec name intervals_key); [contradiction|].
    destruct (in_dec pystr_eq_dec name names); split; intros; eauto;
      contradiction.
Qed.

Lemma create_stats_consistent (mode : interval_mode) :
  msgs_sent (general (create_stats mode)) =
  interval_msgs_sent (int (create_stats mode)).
Proof.
  destruct mode; vm_compute; reflexivity.
Qed.

Lemma totals_consistent_initial (mode : interval_mode)
    (names : list pystr) :
  totals_consistent (initial_stats mode names).
Proof.
  intros name p. rewrite get_initial_stats.
  destruct (pystr_eq_dec name intervals_key); [discriminate|].
  destruct (in_dec pystr_eq_dec name names); [|discriminate].
  intros H. inversion H. apply create_stats_consistent.
Qed.

Lemma in_set {K V : Type} (dec : forall a b : K, {a = b} + {a <> b})
    (k : K) (v : V) (d : dict K V) (entry : K * V) :
  In entry (set dec k v d) -> snd entry = v \/ In entry d.
Proof.
  induction d as [|[k0 v0] d IH]; simpl.
  - intros [<-|[]]. now left.
  - destruct (dec k k0); simpl.
    + intros [<-|H]; [now left | right; now right].
    + intros [<-|H]; [right; now left|].
      destruct (IH H); [now left | right; now right].
Qed.

Lemma total_msgs_sent_nothing {A : Type} (stats : stats_table A) :
  (forall name p,
      In (name, Person p) stats -> msgs_sent (general p) = 0) ->
  total_msgs_sent stats = 0.
Proof.
  unfold total_msgs_sent.
  induction stats as [|[k e] stats IH]; intros H; simpl; [reflexivity|].
  rewrite IH by (intros name p Hin; apply (H name p); now right).
  destruct (pystr_eq_dec k intervals_key); [reflexivity|].
  destruct e as [p|l]; [|reflexivity].
  rewrite (H k p) by now left. reflexivity.
Qed.

Lemma total_msgs_sent_initial (mode : interval_mode)
    (names : list pystr) :
  total_msgs_sent (initial_stats mode names) = 0.
Proof.
  apply total_msgs_sent_nothing. intros name p Hin.
  unfold initial_stats, dict_comprehension in Hin.
  apply in_set in Hin as [H|Hin]; [discriminate|].
  assert (G : forall names d,
             (forall entry, In entry d ->
                snd entry = Person (create_stats mode)) ->
             forall entry,
               In entry
                 (fold_left
                    (fun d x =>
                       set pystr_eq_dec x (Person (create_stats mode)) d)
                    names d) ->
               snd entry = Person (create_stats mode)).
  { clear. induction names as [|x names IH]; intros d Hd entry Hin.
    - now apply Hd.
    - cbn [fold_left] in Hin. apply (IH _) in Hin; [exact Hin|].
      intros e He. apply in_set in He as [He|He]; [exact He | now apply Hd]. }
  apply (G names [] (fun e (F : In e []) => match F with end)) in Hin.
  cbn [snd] in Hin. inversion Hin. now destruct mode.
Qed.

End InitialFacts.

(** ** Totality on well-formed conversations, exceptions on the others *)

Section Totality.
Variable UNICODE_EMOJI : list pystr.

Lemma evolves_shaped (names : list pystr) (delta : Z)
    (l l' : list interval_key) (stats stats' : stats_table Z) :
  evolves delta l l' stats stats' ->
  shaped names stats -> shaped names stats'.
Proof.
  intros (_ & Hl' & _ & _ & Hp & Hn & _) [_ Hs]. split; [eauto|].
  intros name N. destruct (Hs name N) as [Hin Hout]. split.
  - intros H. apply Hp, Hin, H.
  - intros H. apply Hn, Hout, H.
Qed.

Lemma credited_keeps_interval (k : Z) (interval : interval_key)
    (p : profile Z) (c : counters Z) :
  get interval_key_eq_dec interval (int p) = Some c ->
  exists c',
    get interval_key_eq_dec interval (int (credited k interval p))
    = Some c'.
Proof.
  intros H. unfold credited. destruct (k =? 0); [eauto|].
  eexists. apply counters_at_applied.
Qed.

(** A step whose sender and actors all have profiles succeeds. *)
Lemma analyze_step_total (mode : interval_mode) (stats : stats_table Z)
    (msg : Msg.message) (l : list interval_key) :
  get pystr_eq_dec intervals_key stats = Some (Intervals l) ->
  (forall name, In name (speakers msg) -> has_profile stats name) ->
  exists stats', analyze_step UNICODE_EMOJI mode stats msg = Ok stats'.
Proof.
  intros Hl Hall.
  destruct (Hall (Msg.sender_name msg) (or_introl eq_refl)) as [p Hp].
  apply profile_of_get in Hp.
  rewrite (analyze_step_run _ _ _ _ _ _ Hl Hp). cbv zeta.
  set (interval := interval_of mode msg).
  set (noted := set pystr_eq_dec intervals_key _ stats).
  pose proof (evolves_note l (first_seen l [interval]) stats Hl) as Hnote.
  fold noted in Hnote.
  assert (Hp' : profile_of noted (Msg.sender_name msg) = Ok p).
  { unfold noted. rewrite profile_of_set_other; [exact Hp|].
    apply profile_of_get in Hp. congruence. }
  pose proof (evolves_applied _ noted _ p interval _ _
                (proj1 (proj2 Hnote)) Hp'
                (moves_sender_update UNICODE_EMOJI msg)) as Hsent.
  set (sent := set pystr_eq_dec (Msg.sender_name msg) _ noted) in *.
  destruct (handle_reactions_loop_run interval
              (get_or_empty (Msg.reactions msg)) sent)
    as (reacted & Hloop & Hget).
  { intros r Hr.
    apply (proj1 (proj2 (proj2 (proj2 (proj2 Hsent)))) (Msg.actor r)).
    apply (proj1 (proj2 (proj2 (proj2 (proj2 Hnote)))) (Msg.actor r)).
    apply Hall. right. now apply in_map. }
  rewrite Hloop. cbn [bind].
  destruct (truthy (Msg.share msg)); cbn [when]; [|eauto].
  specialize (Hget (Msg.sender_name msg)).
  unfold sent in Hget. rewrite get_set_same in Hget.
  destruct (credited_keeps_interval
              (reactions_by (Msg.sender_name msg)
                 (get_or_empty (Msg.reactions msg)))
              interval _ _ (counters_at_applied interval
                              (sender_update UNICODE_EMOJI msg) p))
    as [c Hc].
  apply profile_of_get in Hget.
  rewrite (handle_links_run _ _ _ _ _ Hget Hc). eauto.
Qed.

Lemma analyze_loop_total (mode : interval_mode) (names : list pystr)
    (msgs : list Msg.message) :
  forall stats : stats_table Z,
    shaped names stats ->
    (forall msg name,
        In msg msgs -> In name (speakers msg) -> declared names name) ->
    exists stats', analyze_loop UNICODE_EMOJI mode stats msgs = Ok stats'.
Proof.
  induction msgs as [|msg msgs IH]; intros stats Hs Hall; [now eexists|].
  destruct Hs as [[l Hl] Hs].
  destruct (analyze_step_total mode stats msg l Hl) as [next Hstep].
  { intros name Hname.
    destruct (Hall msg name (or_introl eq_refl) Hname) as [Hin N].
    now apply Hs. }
  cbn [analyze_loop]. rewrite Hstep. cbn [bind].
  destruct (analyze_step_evolves _ _ _ _ _ Hstep) as [l0 Hone].
  apply IH.
  - eapply evolves_shaped; [exact Hone|]. split; eauto.
  - intros m name Hm. apply Hall. now right.
Qed.

(** The lookup of a name in a shaped table. *)
Lemma profile_of_shaped (names : list pystr) (stats : stats_table Z)
    (name : pystr) :
  shaped names stats ->
  (declared names name /\ has_profile stats name) \/
  (name = intervals_key /\ profile_of stats name = Err TypeError) \/
  (name <> intervals_key /\ ~ In name names /\
   profile_of stats name = Err KeyError).
Proof.
  intros [[l Hl] Hs].
  destruct (pystr_eq_dec name intervals_key) as [->|N].
  - right; left. split; [reflexivity|].
    unfold profile_of, subscript. now rewrite Hl.
  - destruct (Hs name N) as [Hin Hout].
    destruct (in_dec pystr_eq_dec name names) as [I|NI].
    + left. split; [split; assumption | now apply Hin].
    + right; right. repeat split; try assumption.
      unfold profile_of, subscript. now rewrite (Hout NI).
Qed.

(** The loop over the reactions stops at the first actor that is not a
    declared participant. *)
Lemma handle_reactions_loop_undeclared (names : list pystr)
    (interval : interval_key) (rs : list Msg.reaction) :
  forall stats : stats_table Z,
    shaped names stats ->
    (exists r, In r rs /\ ~ declared names (Msg.actor r)) ->
    exists e,
      handle_reactions_loop stats interval rs = Err e /\
      (e = KeyError \/ e = TypeError) /\
      (~ In intervals_key (List.map Msg.actor rs) -> e = KeyError).
Proof.
  induction rs as [|r rs IH]; intros stats Hs (bad & Hin & Hbad);
    [contradiction|].
  destruct (profile_of_shaped names stats (Msg.actor r) Hs)
    as [[Hd [q Hq]] | [[E Hq] | (N & NI & Hq)]].
  - apply profile_of_get in Hq.
    rewrite (handle_reactions_loop_cons _ _ _ _ _ Hq).
    destruct Hs as [[l Hl] Hs'].
    pose proof (evolves_applied l stats _ q interval 0 _ Hl Hq
                  (moves_add_reactions 1)) as Hone.
    destruct (IH _ (evolves_shaped names _ _ _ _ _ Hone
                      (conj (ex_intro _ l Hl) Hs')))
      as (e & He & Hk & Ht).
    + destruct Hin as [<-|Hin]; [contradiction | eauto].
    + exists e. repeat split; auto. intros Hno. apply Ht.
      intros H. apply Hno. now right.
  - exists TypeError.
    rewrite (handle_reactions_loop_stops _ _ _ _ _ Hq).
    repeat split; auto. intros Hno. exfalso. apply Hno. now left.
  - exists KeyError.
    rewrite (handle_reactions_loop_stops _ _ _ _ _ Hq).
    repeat split; auto.
Qed.

(** A step over a message with an undeclared sender or actor stops. *)
Lemma analyze_step_undeclared (mode : interval_mode)
    (names : list pystr) (stats : stats_table Z) (msg : Msg.message) :
  shaped names stats ->
  (exists name, In name (speakers msg) /\ ~ declared names name) ->
  exists e,
    analyze_step UNICODE_EMOJI mode stats msg = Err e /\
    (e = KeyError \/ e = TypeError) /\
    (~ In intervals_key (speakers msg) -> e = KeyError).
Proof.
  intros Hs (bad & Hin & Hbad).
  pose proof Hs as [[l Hl] Hs'].
  destruct (profile_of_shaped names stats (Msg.sender_name msg) Hs)
    as [[Hd [p Hp]] | [[E Hp] | (N & NI & Hp)]].
  - apply profile_of_get in Hp.
    rewrite (analyze_step_run _ _ _ _ _ _ Hl Hp). cbv zeta.
    set (interval := interval_of mode msg).
    set (noted := set pystr_eq_dec intervals_key _ stats).
    pose proof (evolves_note l (first_seen l [interval]) stats Hl)
      as Hnote.
    fold noted in Hnote.
    assert (Hp' : profile_of noted (Msg.sender_name msg) = Ok p).
    { unfold noted. rewrite profile_of_set_other; [exact Hp|].
      apply profile_of_get in Hp. congruence. }
    pose proof (evolves_applied _ noted _ p interval _ _
                  (proj1 (proj2 Hnote)) Hp'
                  (moves_sender_update UNICODE_EMOJI msg)) as Hsent.
    set (sent := set pystr_eq_dec (Msg.sender_name msg) _ noted) in *.
    destruct (handle_reactions_loop_undeclared names interval
                (get_or_empty (Msg.reactions msg)) sent)
      as (e & He & Hk & Ht).
    + eapply evolves_shaped; [exact Hsent|].
      eapply evolves_shaped; [exact Hnote | exact Hs].
    + destruct Hin as [<-|Hin]; [contradiction|].
      apply in_map_iff in Hin as (r & <- & Hr). eauto.
    + exists e. rewrite He. repeat split; auto.
      intros Hno. apply Ht. intros H. apply Hno. now right.
  - exists TypeError. rewrite (analyze_step_stops _ _ _ _ _ _ Hl Hp).
    repeat split; auto. intros Hno. exfalso. apply Hno. now left.
  - exists KeyError. rewrite (analyze_step_stops _ _ _ _ _ _ Hl Hp).
    repeat split; auto.
Qed.

(** A step on a shaped table stops with a lookup or a type error only. *)
Lemma analyze_step_outcome (mode : interval_mode) (names : list pystr)
    (stats : stats_table Z) (msg : Msg.message) :
  shaped names stats ->
  (exists stats',
      analyze_step UNICODE_EMOJI mode stats msg = Ok stats' /\
      shaped names stats') \/
  (exists e,
      analyze_step UNICODE_EMOJI mode stats msg = Err e /\
      (e = KeyError \/ e = TypeError) /\
      (~ In intervals_key (speakers msg) -> e = KeyError)).
Proof.
  intros Hs.
  destruct (analyze_step UNICODE_EMOJI mode stats msg) as [next|e] eqn:H.
  - left. exists next. split; [reflexivity|].
    destruct (analyze_step_evolves _ _ _ _ _ H) as [l Hone].
    eapply evolves_shaped; eassumption.
  - right.
    assert (Hbad : exists name,
               In name (speakers msg) /\ ~ declared names name).
    { assert (D : forall name, {declared names name}
                               + {~ declared names name}).
      { intros name. unfold declared.
        destruct (in_dec pystr_eq_dec name names);
          destruct (pystr_eq_dec name intervals_key); tauto. }
      destruct (Exists_dec (fun name => ~ declared names name)
                  (speakers msg)) as [Hex|Hall].
      - intros name. destruct (D name); [right | left]; tauto.
      - apply Exists_exists in Hex. exact Hex.
      - exfalso. destruct Hs as [[l Hl] Hs'].
        destruct (analyze_step_total mode stats msg l Hl) as [s' Hok].
        + intros name Hin. destruct (D name) as [[I N]|ND].
          * now apply Hs'.
          * exfalso. apply Hall. apply Exists_exists. eauto.
        + congruence. }
    destruct (analyze_step_undeclared mode names stats msg Hs Hbad)
      as (e' & He' & Hrest).
    exists e. assert (e' = e) as <- by congruence. tauto.
Qed.

Lemma analyze_loop_undeclared (mode : interval_mode) (names : list pystr)
    (msgs : list Msg.message) :
  forall stats : stats_table Z,
    shaped names stats ->
    (exists msg name,
        In msg msgs /\ In name (speakers msg) /\ ~ declared names name) ->
    exists e,
      analyze_loop UNICODE_EMOJI mode stats msgs = Err e /\
      (e = KeyError \/ e = TypeError) /\
      ((forall msg, In msg msgs -> ~ In intervals_key (speakers msg)) ->
       e = KeyError).
Proof.
  induction msgs as [|msg msgs IH];
    intros stats Hs (bad & name & Hin & Hname & Hbad); [contradiction|].
  cbn [analyze_loop].
  destruct (analyze_step_outcome mode names stats msg Hs)
    as [(next & Hstep & Hnext) | (e & Hstep & Hk & Ht)].
  - rewrite Hstep. cbn [bind].
    destruct Hin as [<-|Hin].
    + destruct (analyze_step_undeclared mode names stats msg Hs)
        as (e & He & _); [eauto | congruence].
    + destruct (IH next Hnext) as (e & He & Hk & Ht); [eauto|].
      exists e. repeat split; auto. intros Hno. apply Ht.
      intros m Hm. apply Hno. now right.
  - rewrite Hstep. cbn [bind]. exists e. repeat split; auto.
    intros Hno. apply Ht, Hno. now left.
Qed.

End Totality.

(** ** Scenario B *)

Lemma reactions_credit_the_actor_witness :
  exists stats',
    handle_reactions (initial_stats monthly [alice; bob])
      (Label (py "2018-03")) reacted_message = Ok stats' /\
    exists p',
      get pystr_eq_dec alice stats' = Some (Person p') /\
      p' = create_stats monthly.
Proof.
  destruct (reactions_credit_the_actor
              (initial_stats monthly [alice; bob]) (Label (py "2018-03"))
              reacted_message [ {| Msg.actor := bob |} ] eq_refl)
    as (stats' & Hrun & Hall).
  - intros r [<-|[]]. exists (create_stats monthly). reflexivity.
  - exists stats'. split; [exact Hrun|].
    destruct (Hall alice (create_stats monthly) eq_refl)
      as (p' & Hget & _ & _ & _ & Hsame).
    exists p'. split; [exact Hget|].
    apply Hsame. cbn. intros [H|[]]. discriminate.
Defined.

(** ** Photos and GIFs *)

(** C4, as the code has it.  Every photo-like attachment, from the list of
    photos followed by the list of GIFs, is counted once: as a GIF when its
    locator contains [.gif] anywhere, as a photo otherwise.  The two counts
    add up to the number of attachments, and both are added to the general
    counters of the sender and to the sender's counters of the interval. *)
Theorem photos_and_gifs_partition (stats : stats_table Z)
    (interval : interval_key) (msg : Msg.message) (p : profile Z)
    (c : counters Z) :
  let name := Msg.sender_name msg in
  let attachments :=
    get_or_empty (Msg.photos msg) ++ get_or_empty (Msg.gifs msg) in
  let gifs := Z.of_nat (List.length (filter is_gif attachments)) in
  let photos :=
    Z.of_nat (List.length (filter (fun a => negb (is_gif a)) attachments)) in
  profile_of stats name = Ok p ->
  get interval_key_eq_dec interval (int p) = Some c ->
  (forall a,
      is_gif a = true <->
      exists pre post, Msg.uri a = pre ++ py ".gif" ++ post) /\
  photos + gifs = Z.of_nat (List.length attachments) /\
  exists stats' p' c',
    handle_photos_and_gifs stats interval msg = Ok stats' /\
    profile_of stats' name = Ok p' /\
    get interval_key_eq_dec interval (int p') = Some c' /\
    photos_sent (general p') = photos_sent (general p) + photos /\
    gifs_sent (general p') = gifs_sent (general p) + gifs /\
    photos_sent c' = photos_sent c + photos /\
    gifs_sent c' = gifs_sent c + gifs.
Proof.
  intros name attachments gifs photos Hp Hc.
  split; [intros a; apply str_in_spec | split].
  - subst photos gifs. clear.
    induction attachments as [|a l IH]; cbn [filter List.length]; [lia|].
    destruct (is_gif a); cbn [negb List.length]; lia.
  - eexists. eexists. eexists.
    split; [apply (handle_photos_and_gifs_run _ _ _ _ _ Hp Hc)|].
    split; [apply profile_of_set_same|].
    split; [apply counters_at_applied|].
    rewrite (counters_at_get _ _ _ Hc).
    repeat split; reflexivity.
Qed.

Lemma photos_and_gifs_partition_witness :
  exists stats' p',
    handle_photos_and_gifs (initial_stats hourly [alice]) (Hour 14)
      picture_message = Ok stats' /\
    profile_of stats' alice = Ok p' /\
    photos_sent (general p') = 1 /\ gifs_sent (general p') = 2.
Proof.
  destruct (photos_and_gifs_partition
              (initial_stats hourly [alice]) (Hour 14) picture_message
              (create_stats hourly) _create_stats eq_refl eq_refl)
    as (_ & _ & stats' & p' & c' & Hrun & Hp' & _ & Hph & Hg & _).
  exists stats', p'. repeat split; assumption.
Defined.

(** C4 as stated fails: a locator that holds [.gif] in the middle does not
    end in the extension and is counted as a GIF all the same. *)
Lemma gif_in_the_middle_counts_as_gif :
  ends_with (Msg.uri renamed_clip) (py ".gif") = false /\
  is_gif renamed_clip = true /\
  tally [renamed_clip] = (0, 1) /\
  ~ (forall a, is_gif a = true <-> ends_with (Msg.uri a) (py ".gif") = true).
Proof.
  repeat split; try reflexivity.
  intros H. destruct (H renamed_clip) as [H1 _].
  specialize (H1 eq_refl). discriminate.
Qed.

(** ** The totals *)

(** C5.  The table of an analysis starts with consistent totals, every step
    of the fold that completes keeps them consistent, and so the table at
    the end of the fold has, for every participant, a general count of
    messages sent equal to the sum of the counts of the participant's
    intervals. *)
Theorem totals_stay_consistent (UNICODE_EMOJI : list pystr)
    (mode : interval_mode) :
  (forall names, totals_consistent (initial_stats mode names)) /\
  (forall stats msg stats',
      totals_consistent stats ->
      analyze_step UNICODE_EMOJI mode stats msg = Ok stats' ->
      totals_consistent stats') /\
  (forall convo stats',
      analyze_loop UNICODE_EMOJI mode
        (initial_stats mode (participants convo)) (messages convo)
      = Ok stats' ->
      forall name p,
        get pystr_eq_dec name stats' = Some (Person p) ->
        msgs_sent (general p) = interval_msgs_sent (int p)).
Proof.
  split; [apply totals_consistent_initial | split].
  - intros stats msg stats' Hc Hstep.
    destruct (analyze_step_evolves _ _ _ _ _ Hstep)
      as (l & _ & _ & Hkeep & _).
    now apply Hkeep.
  - intros convo stats' Hloop.
    destruct (shaped_initial mode (participants convo)) as [[l Hl] _].
    destruct (analyze_loop_evolves _ _ _ _ _ _ Hl Hloop)
      as (_ & _ & Hkeep & _).
    apply Hkeep, totals_consistent_initial.
Qed.

Lemma totals_stay_consistent_witness :
  exists stats' p,
    analyze_loop [] hourly (initial_stats hourly [alice]) two_texts
    = Ok stats' /\
    get pystr_eq_dec alice stats' = Some (Person p) /\
    msgs_sent (general p) = 2 /\
    interval_msgs_sent (int p) = 2.
Proof.
  destruct (analyze_loop [] hourly (initial_stats hourly [alice]) two_texts)
    as [stats'|e] eqn:Hloop; [|vm_compute in Hloop; discriminate].
  destruct (get pystr_eq_dec alice stats') as [[p|l]|] eqn:Hget;
    try (vm_compute in Hloop; inversion Hloop; subst stats';
         vm_compute in Hget; discriminate).
  exists stats', p.
  pose proof (proj2 (proj2 (totals_stay_consistent [] hourly))
                alone_convo stats' Hloop alice p Hget) as Hsum.
  assert (Hmsgs : msgs_sent (general p) = 2).
  { vm_compute in Hloop. inversion Hloop; subst stats'.
    vm_compute in Hget. inversion Hget. reflexivity. }
  split; [reflexivity|]. split; [exact Hget|].
  split; [exact Hmsgs | now rewrite <- Hsum].
Defined.

(** C6.  On a conversation whose senders and actors are participants, the
    fold completes and the counts of messages sent of all participants add
    up to the number of messages with non-empty text: each such message is
    counted once, no other message is counted. *)
Theorem no_double_counting (UNICODE_EMOJI : list pystr)
    (mode : interval_mode) (convo : conversation) :
  well_formed convo ->
  exists stats',
    analyze_loop UNICODE_EMOJI mode
      (initial_stats mode (participants convo)) (messages convo)
    = Ok stats' /\
    total_msgs_sent stats' = text_messages (messages convo).
Proof.
  intros Hwf.
  destruct (analyze_loop_total UNICODE_EMOJI mode (participants convo)
              (messages convo) _ (shaped_initial mode (participants convo))
              Hwf) as [stats' Hloop].
  exists stats'. split; [exact Hloop|].
  destruct (shaped_initial mode (participants convo)) as [[l Hl] _].
  destruct (analyze_loop_evolves _ _ _ _ _ _ Hl Hloop)
    as (_ & _ & _ & Htotal & _).
  rewrite Htotal, total_msgs_sent_initial. lia.
Qed.

Lemma well_formed_alone : well_formed alone_convo.
Proof.
  intros msg name Hmsg Hname. unfold declared.
  assert (name = alice) as ->.
  { destruct Hmsg as [<-|[<-|[]]]; destruct Hname as [<-|[]]; reflexivity. }
  split; [now left | discriminate].
Defined.

Lemma no_double_counting_witness :
  exists stats',
    analyze_loop [] monthly (initial_stats monthly [alice]) two_texts
    = Ok stats' /\
    total_msgs_sent stats' = 2.
Proof.
  exact (no_double_counting [] monthly alone_convo well_formed_alone).
Defined.

(** ** Speakers who are not participants *)

(** C10, as the code has it.  When the sender of a message, or the actor of
    one of its reactions, is not among the participants, the fold stops with
    an exception and [analyze] with it: no profile is created for the name
    and the message is not skipped.  The exception is a [KeyError], or a
    [TypeError] raised by the list kept under ['intervals']; it is a
    [KeyError] when no sender and no actor is called ['intervals']. *)
Theorem undeclared_speaker_stops_the_fold (UNICODE_EMOJI : list pystr)
    (mode : interval_mode) (convo : conversation) :
  (exists msg name,
      In msg (messages convo) /\ In name (speakers msg) /\
      ~ In name (participants convo)) ->
  exists e,
    analyze_loop UNICODE_EMOJI mode
      (initial_stats mode (participants convo)) (messages convo) = Err e /\
    analyze UNICODE_EMOJI convo mode = Err e /\
    (e = KeyError \/ e = TypeError) /\
    ((forall msg, In msg (messages convo) ->
                  ~ In intervals_key (speakers msg)) ->
     e = KeyError).
Proof.
  intros (msg & name & Hmsg & Hname & Hout).
  destruct (analyze_loop_undeclared UNICODE_EMOJI mode (participants convo)
              (messages convo) _ (shaped_initial mode (participants convo)))
    as (e & Hloop & Hkind & Hkey).
  - exists msg, name. repeat split; try assumption.
    intros [Hin _]. contradiction.
  - exists e. unfold analyze. rewrite Hloop. repeat split; assumption.
Qed.

Lemma undeclared_speaker_stops_the_fold_witness :
  analyze [] stranger_convo hourly = Err KeyError.
Proof.
  destruct (undeclared_speaker_stops_the_fold [] hourly stranger_convo)
    as (e & _ & Hrun & _ & Hkey).
  - exists (text_message bob noon_in_march (py "hi")), bob.
    split; [now left | split; [now left|]].
    intros [H|[]]. discriminate.
  - rewrite Hrun. f_equal. apply Hkey.
    intros msg [<-|[]] [H|[]]. discriminate.
Defined.

(** C10 as stated fails for a sender called ['intervals']: the name is no
    participant, yet the step stops with a [TypeError], not with a
    [KeyError]. *)
Lemma namesake_sender_is_a_type_error :
  ~ In (py "intervals") (participants namesake_convo) /\
  analyze_step [] hourly (initial_stats hourly (participants namesake_convo))
    (text_message (py "intervals") noon_in_march (py "hi"))
  = Err TypeError /\
  analyze [] namesake_convo hourly = Err TypeError.
Proof.
  split; [|split; vm_compute; reflexivity].
  intros [H|[]]. discriminate.
Qed.

(** ** Loops over dictionaries *)

Section ForEachFacts.
Context {K A B : Type}.
Variable dec : forall a b : K, {a = b} + {a <> b}.
Variable f : K -> A -> result B.

Lemma for_each_get (d : dict K A) (d' : dict K B) :
  for_each f d = Ok d' ->
  forall k,
    match get dec k d with
    | Some v => exists v', f k v = Ok v' /\ get dec k d' = Some v'
    | None => get dec k d' = None
    end.
Proof.
  revert d'. induction d as [|[k0 v0] d IH]; intros d' H k.
  - inversion H. reflexivity.
  - cbn [for_each] in H.
    destruct (f k0 v0) as [v0'|e] eqn:E0; cbn [bind] in H; [|discriminate].
    destruct (for_each f d) as [rest|e] eqn:Er; cbn [bind] in H;
      [|discriminate].
    inversion H; subst d'. cbn [get].
    destruct (dec k k0) as [->|N]; [eauto | apply IH; reflexivity].
Qed.

Lemma for_each_keys (d : dict K A) (d' : dict K B) :
  for_each f d = Ok d' -> keys d' = keys d.
Proof.
  revert d'. induction d as [|[k0 v0] d IH]; intros d' H.
  - inversion H. reflexivity.
  - cbn [for_each] in H.
    destruct (f k0 v0) as [v0'|e]; cbn [bind] in H; [|discriminate].
    destruct (for_each f d) as [rest|e]; cbn [bind] in H; [|discriminate].
    inversion H; subst d'. unfold keys in *. cbn [List.map fst].
    f_equal. now apply IH.
Qed.

Lemma for_each_completes (d : dict K A) :
  (forall k v, In (k, v) d -> exists v', f k v = Ok v') ->
  exists d', for_each f d = Ok d'.
Proof.
  induction d as [|[k0 v0] d IH]; intros H; [now eexists|].
  destruct (H k0 v0 (or_introl eq_refl)) as [v0' E0].
  destruct IH as [rest Er]; [intros k v Hin; apply H; now right|].
  cbn [for_each]. rewrite E0, Er. cbn [bind]. eauto.
Qed.

(** When [e] is the only exception the body can raise, the loop raises it
    as soon as one entry does. *)
Lemma for_each_raises (e : exn) (d : dict K A) :
  (forall k v, In (k, v) d ->
               (exists v', f k v = Ok v') \/ f k v = Err e) ->
  (exists k v, In (k, v) d /\ f k v = Err e) ->
  for_each f d = Err e.
Proof.
  induction d as [|[k0 v0] d IH]; intros Hall (k & v & Hin & Hbad);
    [contradiction|].
  cbn [for_each].
  destruct (Hall k0 v0 (or_introl eq_refl)) as [[v0' E0]|E0];
    rewrite E0; cbn [bind]; [|reflexivity].
  rewrite IH; [reflexivity | intros; apply Hall; now right |].
  destruct Hin as [Heq|Hin]; [|eauto].
  inversion Heq; subst. congruence.
Qed.

Lemma in_get (d : dict K A) (k : K) (v : A) :
  NoDup (keys d) -> In (k, v) d -> get dec k d = Some v.
Proof.
  unfold keys. induction d as [|[k0 v0] d IH]; intros Hnd Hin;
    [contradiction|].
  cbn [List.map fst] in Hnd. inversion Hnd as [|? ? Hout Hrest]; subst.
  cbn [get]. destruct Hin as [Heq|Hin].
  - inversion Heq; subst. now destruct (dec k k).
  - destruct (dec k k0) as [->|N]; [|now apply IH].
    exfalso. apply Hout. apply in_map_iff. now exists (k0, v).
Qed.

Lemma get_in (d : dict K A) (k : K) (v : A) :
  get dec k d = Some v -> In (k, v) d.
Proof.
  induction d as [|[k0 v0] d IH]; cbn [get]; [discriminate|].
  destruct (dec k k0) as [->|N]; intros H.
  - inversion H. now left.
  - right. now apply IH.
Qed.

Lemma keys_set_new (k : K) (v : A) (d : dict K A) :
  get dec k d = None -> keys (set dec k v d) = keys d ++ [k].
Proof.
  unfold keys. induction d as [|[k0 v0] d IH]; cbn [get set]; [reflexivity|].
  destruct (dec k k0); [discriminate|]. intros H.
  cbn [List.map fst app]. now rewrite IH.
Qed.

Lemma nodup_keys_set (k : K) (v : A) (d : dict K A) :
  NoDup (keys d) -> NoDup (keys (set dec k v d)).
Proof.
  intros H. destruct (get dec k d) as [v0|] eqn:E.
  - now rewrite (keys_set dec k v v0 d E).
  - rewrite (keys_set_new k v d E).
    apply NoDup_app; [exact H | constructor; [easy | constructor] |].
    intros x Hx [<-|[]].
    apply (get_in_keys dec) in Hx as [v' Hv]. congruence.
Qed.

End ForEachFacts.

(** ** Tallies *)

Ltac counters_eq :=
  cbv [counters_add additive _create_stats add_msgs_sent add_avg_msg_len
       add_photos_sent add_vids_sent add_links_sent add_gifs_sent
       add_emojis_sent add_reactions int_of_bool msgs_sent avg_msg_len
       photos_sent vids_sent links_sent gifs_sent emojis_sent reactions];
  f_equal; lia.

Section TallyFacts.
Variable UNICODE_EMOJI : list pystr.

Lemma counters_add_zero (c : counters Z) : counters_add c _create_stats = c.
Proof. destruct c. counters_eq. Qed.

Lemma counters_add_assoc (a b c : counters Z) :
  counters_add (counters_add a b) c = counters_add a (counters_add b c).
Proof. counters_eq. Qed.

Lemma additive_add_reactions (n : Z) :
  additive (add_reactions n _create_stats) (add_reactions n).
Proof. intros c. counters_eq. Qed.

Lemma additive_add_links_sent (n : Z) :
  additive (add_links_sent n _create_stats) (add_links_sent n).
Proof. intros c. counters_eq. Qed.

Lemma additive_sender_update (msg : Msg.message) :
  additive (sender_update UNICODE_EMOJI msg _create_stats)
    (sender_update UNICODE_EMOJI msg).
Proof.
  intros c. destruct c.
  unfold sender_update, content_update, photos_update.
  destruct (truthy (Msg.content msg));
    destruct (truthy (Msg.photos msg) || truthy (Msg.gifs msg));
    destruct (truthy (Msg.videos msg)); counters_eq.
Qed.

Lemma counters_at_set_other (interval other : interval_key)
    (c : counters Z) (d : dict interval_key (counters Z)) :
  other <> interval ->
  counters_at other (set interval_key_eq_dec interval c d) =
  counters_at other d.
Proof.
  intros N. unfold counters_at. now rewrite get_set_other.
Qed.

Lemma gains_ext (interval : interval_key) (g g' : pystr -> counters Z)
    (stats stats' : stats_table Z) :
  (forall name, g name = g' name) ->
  gains interval g stats stats' -> gains interval g' stats stats'.
Proof.
  intros E H name p Hp. destruct (H name p Hp) as (p' & H1 & H2 & H3 & H4).
  exists p'. rewrite <- E. auto.
Qed.

Lemma gains_refl (interval : interval_key) (stats : stats_table Z) :
  gains interval (fun _ => _create_stats) stats stats.
Proof.
  intros name p Hp. exists p. rewrite !counters_add_zero. auto.
Qed.

Lemma gains_trans (interval : interval_key) (g1 g2 : pystr -> counters Z)
    (s0 s1 s2 : stats_table Z) :
  gains interval g1 s0 s1 -> gains interval g2 s1 s2 ->
  gains interval (fun name => counters_add (g1 name) (g2 name)) s0 s2.
Proof.
  intros H1 H2 name p Hp.
  destruct (H1 name p Hp) as (p1 & Hp1 & Hg1 & Hi1 & Ho1).
  destruct (H2 name p1 Hp1) as (p2 & Hp2 & Hg2 & Hi2 & Ho2).
  exists p2. split; [exact Hp2|].
  rewrite Hg2, Hg1, Hi2, Hi1, !counters_add_assoc.
  repeat split. intros other N. now rewrite Ho2, Ho1.
Qed.

Lemma gains_note (interval : interval_key) (l l' : list interval_key)
    (stats : stats_table Z) :
  get pystr_eq_dec intervals_key stats = Some (Intervals l) ->
  gains interval (fun _ => _create_stats) stats
    (set pystr_eq_dec intervals_key (Intervals l') stats).
Proof.
  intros Hl name p Hp. exists p.
  rewrite get_set_other by congruence.
  rewrite !counters_add_zero. auto.
Qed.

Lemma gains_applied (interval : interval_key) (stats : stats_table Z)
    (who : pystr) (p : profile Z) (d : counters Z)
    (f : counters Z -> counters Z) :
  profile_of stats who = Ok p ->
  additive d f ->
  gains interval
    (fun name => if pystr_eq_dec who name then d else _create_stats)
    stats (set pystr_eq_dec who (Person (applied interval f p)) stats).
Proof.
  intros Hp Hf name q Hq. apply profile_of_get in Hp.
  destruct (pystr_eq_dec who name) as [<-|N].
  - assert (q = p) as -> by congruence.
    exists (applied interval f p). split; [apply get_set_same|].
    rewrite (counters_at_get _ _ _ (counters_at_applied interval f p)).
    rewrite <- !Hf. repeat split.
    intros other No. cbn [applied int]. now apply counters_at_set_other.
  - exists q. rewrite get_set_other by congruence.
    rewrite !counters_add_zero. auto.
Qed.

Lemma handle_reactions_loop_gains (interval : interval_key)
    (rs : list Msg.reaction) :
  forall stats stats' : stats_table Z,
    handle_reactions_loop stats interval rs = Ok stats' ->
    gains interval
      (fun name => add_reactions (reactions_by name rs) _create_stats)
      stats stats'.
Proof.
  induction rs as [|r rs IH]; intros stats stats' H.
  - inversion H; subst. apply gains_refl.
  - destruct (profile_of stats (Msg.actor r)) as [q|e] eqn:Hq.
    + rewrite (handle_reactions_loop_cons _ _ _ _ _ Hq) in H.
      eapply gains_ext;
        [ | eapply gains_trans;
            [ apply (gains_applied interval stats _ q _ _ Hq
                       (additive_add_reactions 1))
            | apply IH, H ] ].
      intros name. cbn beta. rewrite reactions_by_cons.
      destruct (pystr_eq_dec (Msg.actor r) name); counters_eq.
    + rewrite (handle_reactions_loop_stops _ _ _ _ _ Hq) in H.
      discriminate.
Qed.

Lemma handle_links_gains (stats stats' : stats_table Z)
    (interval : interval_key) (msg : Msg.message) :
  when (truthy (Msg.share msg)) (handle_links stats interval msg) stats
  = Ok stats' ->
  gains interval
    (fun name =>
       add_links_sent
         (int_of_bool (sent_by name msg && truthy (Msg.share msg)))
         _create_stats)
    stats stats'.
Proof.
  intros H. destruct (truthy (Msg.share msg)); cbn [when] in H.
  - destruct (profile_of stats (Msg.sender_name msg)) as [q|e] eqn:Hq.
    + destruct (get interval_key_eq_dec interval (int q)) as [c|] eqn:Hc.
      * rewrite (handle_links_run _ _ _ _ _ Hq Hc) in H.
        inversion H; subst.
        eapply gains_ext;
          [ | apply (gains_applied interval stats _ q _ _ Hq
                       (additive_add_links_sent 1)) ].
        intros name. cbn beta. unfold sent_by.
        destruct (pystr_eq_dec (Msg.sender_name msg) name); reflexivity.
      * rewrite (handle_links_stops _ _ _ _ Hq Hc) in H. discriminate.
    + unfold handle_links, upd_general in H. rewrite Hq in H. discriminate.
  - inversion H; subst. eapply gains_ext; [|apply gains_refl].
    intros name. cbn beta. rewrite andb_false_r. reflexivity.
Qed.

End TallyFacts.

Section FoldTallies.
Variable UNICODE_EMOJI : list pystr.

Lemma counters_add_zero_l (c : counters Z) :
  counters_add _create_stats c = c.
Proof. destruct c. counters_eq. Qed.

Lemma truthy_false_empty {A : Type} (o : option (list A)) :
  truthy o = false -> get_or_empty o = [].
Proof.
  destruct o as [[|a l]|]; cbn; intros H; [reflexivity | discriminate
                                           | reflexivity].
Qed.

(** What the update of the sender adds to counters that are all zero. *)
Lemma sender_update_zero (msg : Msg.message) :
  sender_update UNICODE_EMOJI msg _create_stats =
  let text := get_or_empty (Msg.content msg) in
  let pictures :=
    get_or_empty (Msg.photos msg) ++ get_or_empty (Msg.gifs msg) in
  {| msgs_sent := int_of_bool (truthy (Msg.content msg));
     avg_msg_len := if truthy (Msg.content msg) then len text else 0;
     photos_sent :=
       Z.of_nat (List.length (filter (fun a => negb (is_gif a)) pictures));
     vids_sent := Z.of_nat (List.length (get_or_empty (Msg.videos msg)));
     links_sent := 0;
     gifs_sent := Z.of_nat (List.length (filter is_gif pictures));
     emojis_sent :=
       if truthy (Msg.content msg) then count_emoji UNICODE_EMOJI text
       else 0;
     reactions := 0 |}.
Proof.
  unfold sender_update, content_update, photos_update. cbv zeta.
  destruct (truthy (Msg.videos msg)) eqn:Hv;
    [|rewrite (truthy_false_empty _ Hv)];
    (destruct (truthy (Msg.photos msg) || truthy (Msg.gifs msg)) eqn:Hp;
     [|apply orb_false_elim in Hp as [Hp Hg];
       rewrite (truthy_false_empty _ Hp), (truthy_false_empty _ Hg)]);
    destruct (truthy (Msg.content msg));
    cbn [app filter List.length]; counters_eq.
Qed.

(** The parts a step adds for one name make up the message's worth. *)
Lemma contribution_parts (name : pystr) (msg : Msg.message) :
  counters_add
    (counters_add _create_stats
       (if pystr_eq_dec (Msg.sender_name msg) name
        then sender_update UNICODE_EMOJI msg _create_stats
        else _create_stats))
    (counters_add
       (add_reactions
          (reactions_by name (get_or_empty (Msg.reactions msg)))
          _create_stats)
       (add_links_sent
          (int_of_bool (sent_by name msg && truthy (Msg.share msg)))
          _create_stats)) =
  contribution UNICODE_EMOJI name msg.
Proof.
  rewrite sender_update_zero. unfold contribution, sent_by. cbv zeta.
  destruct (pystr_eq_dec (Msg.sender_name msg) name) as [E|N];
    cbn [andb]; counters_eq.
Qed.

Lemma analyze_step_gains (mode : interval_mode)
    (stats stats' : stats_table Z) (msg : Msg.message) :
  analyze_step UNICODE_EMOJI mode stats msg = Ok stats' ->
  gains (interval_of mode msg)
    (fun name => contribution UNICODE_EMOJI name msg) stats stats'.
Proof.
  intros H.
  destruct (get pystr_eq_dec intervals_key stats) as [[q|l]|] eqn:Hl;
    try (unfold analyze_step, note_interval, subscript in H;
         rewrite Hl in H; discriminate).
  destruct (profile_of stats (Msg.sender_name msg)) as [p|e] eqn:Hp;
    [|rewrite (analyze_step_stops _ _ _ _ _ _ Hl Hp) in H; discriminate].
  rewrite (analyze_step_run _ _ _ _ _ _ Hl Hp) in H. cbv zeta in H.
  set (interval := interval_of mode msg) in *.
  set (noted := set pystr_eq_dec intervals_key _ stats) in H.
  assert (Hp' : profile_of noted (Msg.sender_name msg) = Ok p).
  { unfold noted. rewrite profile_of_set_other; [exact Hp|].
    apply profile_of_get in Hp. congruence. }
  pose proof (gains_note interval l (first_seen l [interval]) stats Hl)
    as Hnote.
  fold noted in Hnote.
  pose proof (gains_applied interval noted _ p _ _ Hp'
                (additive_sender_update UNICODE_EMOJI msg)) as Hsent.
  set (sent := set pystr_eq_dec (Msg.sender_name msg) _ noted) in *.
  destruct (handle_reactions_loop sent interval
              (get_or_empty (Msg.reactions msg)))
    as [reacted|e] eqn:Hloop; cbn [bind] in H; [|discriminate].
  pose proof (handle_reactions_loop_gains _ _ _ _ Hloop) as Hreacted.
  pose proof (handle_links_gains _ _ _ _ H) as Hlinked.
  eapply gains_ext;
    [ | eapply gains_trans;
        [ eapply gains_trans; [exact Hnote | exact Hsent]
        | eapply gains_trans; [exact Hreacted | exact Hlinked] ] ].
  intros name. cbn beta. apply contribution_parts.
Qed.

Lemma in_interval_cons (mode : interval_mode) (interval : interval_key)
    (msg : Msg.message) (msgs : list Msg.message) :
  in_interval mode interval (msg :: msgs) =
  if interval_key_eq_dec (interval_of mode msg) interval
  then msg :: in_interval mode interval msgs
  else in_interval mode interval msgs.
Proof.
  unfold in_interval. cbn [filter].
  now destruct (interval_key_eq_dec (interval_of mode msg) interval).
Qed.

Lemma analyze_loop_tallied (mode : interval_mode)
    (msgs : list Msg.message) :
  forall stats stats' : stats_table Z,
    analyze_loop UNICODE_EMOJI mode stats msgs = Ok stats' ->
    tallied UNICODE_EMOJI mode msgs stats stats'.
Proof.
  induction msgs as [|msg msgs IH]; intros stats stats' H.
  - inversion H; subst. intros name p Hp. exists p.
    split; [exact Hp|]. cbn. rewrite counters_add_zero.
    split; [reflexivity|]. intros interval. now rewrite counters_add_zero.
  - cbn [analyze_loop] in H.
    destruct (analyze_step UNICODE_EMOJI mode stats msg)
      as [next|e] eqn:Hstep; cbn [bind] in H; [|discriminate].
    pose proof (analyze_step_gains _ _ _ _ Hstep) as Hone.
    pose proof (IH _ _ H) as Hrest.
    intros name p Hp.
    destruct (Hone name p Hp) as (p1 & Hp1 & Hg1 & Hi1 & Ho1).
    destruct (Hrest name p1 Hp1) as (p' & Hp' & Hg' & Hi').
    exists p'. split; [exact Hp'|]. split.
    + rewrite Hg', Hg1, counters_add_assoc. reflexivity.
    + intros interval. rewrite Hi', in_interval_cons.
      destruct (interval_key_eq_dec (interval_of mode msg) interval)
        as [<-|N].
      * rewrite Hi1, counters_add_assoc. reflexivity.
      * rewrite Ho1 by congruence. reflexivity.
Qed.

Lemma counters_at_create_stats (mode : interval_mode)
    (interval : interval_key) :
  counters_at interval (int (create_stats mode)) = _create_stats.
Proof.
  unfold counters_at.
  destruct (get interval_key_eq_dec interval (int (create_stats mode)))
    as [c|] eqn:E; [|reflexivity].
  apply get_in in E.
  assert (F : Forall (fun e : interval_key * counters Z =>
                        snd e = _create_stats) (int (create_stats mode))).
  { destruct mode; cbn; repeat constructor. }
  rewrite Forall_forall in F. exact (F _ E).
Qed.

End FoldTallies.

Section TallyFields.
Variable UNICODE_EMOJI : list pystr.

Lemma tally_of_msgs_sent (name : pystr) (msgs : list Msg.message) :
  msgs_sent (tally_of UNICODE_EMOJI name msgs) =
  Z.of_nat
    (List.length
       (filter (fun msg => sent_by name msg && truthy (Msg.content msg))
          msgs)).
Proof.
  induction msgs as [|msg msgs IH]; [reflexivity|].
  cbn [tally_of fold_right filter] in *. fold (tally_of UNICODE_EMOJI name msgs).
  cbn [counters_add msgs_sent contribution]. rewrite IH.
  destruct (sent_by name msg && truthy (Msg.content msg));
    cbn [int_of_bool List.length]; lia.
Qed.

Lemma tally_of_avg_msg_len (name : pystr) (msgs : list Msg.message) :
  avg_msg_len (tally_of UNICODE_EMOJI name msgs) =
  fold_right
    (fun msg acc =>
       (if sent_by name msg && truthy (Msg.content msg)
        then len (get_or_empty (Msg.content msg)) else 0) + acc)
    0 msgs.
Proof.
  induction msgs as [|msg msgs IH]; [reflexivity|].
  cbn [tally_of fold_right] in *. fold (tally_of UNICODE_EMOJI name msgs).
  cbn [counters_add avg_msg_len contribution]. now rewrite IH.
Qed.

Lemma tally_of_reactions (name : pystr) (msgs : list Msg.message) :
  reactions (tally_of UNICODE_EMOJI name msgs) =
  fold_right
    (fun msg acc =>
       reactions_by name (get_or_empty (Msg.reactions msg)) + acc)
    0 msgs.
Proof.
  induction msgs as [|msg msgs IH]; [reflexivity|].
  cbn [tally_of fold_right] in *. fold (tally_of UNICODE_EMOJI name msgs).
  cbn [counters_add reactions contribution]. now rewrite IH.
Qed.

End TallyFields.

(** ** What the fold computes *)

(** X1.  On a conversation whose senders and actors are participants the
    fold completes, and the profile of every participant holds exactly what
    the messages are worth to that participant: the general counters are the
    sum of the contributions of all messages, the counters of an interval
    the sum over the messages of that interval (all zero for an interval
    without entry).  In particular [msgs_sent] is the number of messages
    with text that the participant sent. *)
Theorem profiles_are_exact_tallies (UNICODE_EMOJI : list pystr)
    (mode : interval_mode) (convo : conversation) :
  well_formed convo ->
  exists stats',
    analyze_loop UNICODE_EMOJI mode
      (initial_stats mode (participants convo)) (messages convo)
    = Ok stats' /\
    forall name,
      In name (participants convo) -> name <> intervals_key ->
      exists p,
        get pystr_eq_dec name stats' = Some (Person p) /\
        general p = tally_of UNICODE_EMOJI name (messages convo) /\
        (forall interval,
            counters_at interval (int p) =
            tally_of UNICODE_EMOJI name
              (in_interval mode interval (messages convo))) /\
        msgs_sent (general p) =
          Z.of_nat
            (List.length
               (filter
                  (fun msg => sent_by name msg && truthy (Msg.content msg))
                  (messages convo))).
Proof.
  intros Hwf.
  destruct (analyze_loop_total UNICODE_EMOJI mode (participants convo)
              (messages convo) _ (shaped_initial mode (participants convo))
              Hwf) as [stats' Hloop].
  exists stats'. split; [exact Hloop|].
  intros name Hin Hname.
  assert (Hinit : get pystr_eq_dec name
                    (initial_stats mode (participants convo)) =
                  Some (Person (create_stats mode))).
  { rewrite get_initial_stats.
    destruct (pystr_eq_dec name intervals_key); [contradiction|].
    destruct (in_dec pystr_eq_dec name (participants convo));
      [reflexivity | contradiction]. }
  destruct (analyze_loop_tallied _ _ _ _ _ Hloop name _ Hinit)
    as (p & Hp & Hg & Hi).
  exists p. split; [exact Hp|].
  assert (Hg' : general p = tally_of UNICODE_EMOJI name (messages convo)).
  { rewrite Hg. destruct mode; apply counters_add_zero_l. }
  split; [exact Hg' | split].
  - intros interval.
    now rewrite Hi, counters_at_create_stats, counters_add_zero_l.
  - rewrite Hg'. apply tally_of_msgs_sent.
Qed.

Lemma profiles_are_exact_tallies_witness :
  exists stats' p,
    analyze_loop [] monthly (initial_stats monthly [alice]) two_texts
    = Ok stats' /\
    get pystr_eq_dec alice stats' = Some (Person p) /\
    msgs_sent (general p) = 2 /\ avg_msg_len (general p) = 10.
Proof.
  destruct (profiles_are_exact_tallies [] monthly alone_convo
              well_formed_alone) as (stats' & Hloop & Hall).
  destruct (Hall alice (or_introl eq_refl)) as (p & Hp & Hg & _ & Hm).
  - discriminate.
  - exists stats', p. repeat split; try assumption.
    rewrite Hg. reflexivity.
Defined.

(** ** The keys of the table *)

Section KeyFacts.

Lemma nodup_keys_comprehension {V : Type} (v : V) (names : list pystr) :
  forall d : dict pystr V,
    NoDup (keys d) ->
    NoDup (keys (fold_left (fun d x => set pystr_eq_dec x v d) names d)).
Proof.
  induction names as [|x names IH]; intros d H; [exact H|].
  cbn [fold_left]. apply IH. now apply nodup_keys_set.
Qed.

Lemma nodup_keys_initial (mode : interval_mode) (names : list pystr) :
  NoDup (keys (initial_stats mode names)).
Proof.
  unfold initial_stats, dict_comprehension.
  apply nodup_keys_set, nodup_keys_comprehension. constructor.
Qed.

Lemma in_keys_initial (mode : interval_mode) (names : list pystr)
    (name : pystr) :
  In name (keys (initial_stats mode names)) <->
  In name names \/ name = intervals_key.
Proof.
  rewrite (get_in_keys pystr_eq_dec), get_initial_stats.
  destruct (pystr_eq_dec name intervals_key) as [E|N].
  - split; [now right | eauto].
  - destruct (in_dec pystr_eq_dec name names) as [I|NI].
    + split; [now left | eauto].
    + split; [intros [v H]; discriminate | tauto].
Qed.

Lemma first_seen_extends (l seen : list interval_key) :
  exists more, first_seen seen l = seen ++ more.
Proof.
  revert seen; induction l as [|x l IH]; intros seen; cbn [first_seen].
  - exists []. now rewrite app_nil_r.
  - destruct (in_dec interval_key_eq_dec x seen); [apply IH|].
    destruct (IH (seen ++ [x])) as [more ->].
    exists (x :: more). now rewrite <- app_assoc.
Qed.

Lemma first_seen_nodup (l seen : list interval_key) :
  NoDup seen -> NoDup (first_seen seen l).
Proof.
  revert seen; induction l as [|x l IH]; intros seen H; cbn [first_seen];
    [exact H|].
  destruct (in_dec interval_key_eq_dec x seen) as [I|NI]; apply IH;
    [exact H|].
  apply NoDup_app; [exact H | constructor; [easy | constructor] |].
  intros y Hy [<-|[]]. contradiction.
Qed.

Lemma first_seen_in (l seen : list interval_key) (x : interval_key) :
  In x (first_seen seen l) <-> In x seen \/ In x l.
Proof.
  revert seen; induction l as [|y l IH]; intros seen; cbn [first_seen].
  - cbn. tauto.
  - destruct (in_dec interval_key_eq_dec y seen) as [I|NI];
      rewrite IH; cbn [In]; [|rewrite in_app_iff; cbn [In]].
    + split; [tauto|]. intros [H|[<-|H]]; tauto.
    + tauto.
Qed.

End KeyFacts.

(** X2.  The fold never adds, removes or reorders a key of the table: when
    it completes, the keys are those of the initial table, which are the
    participants' names, each once, and ['intervals']. *)
Theorem fold_keeps_the_keys (UNICODE_EMOJI : list pystr)
    (mode : interval_mode) (convo : conversation)
    (stats' : stats_table Z) :
  analyze_loop UNICODE_EMOJI mode
    (initial_stats mode (participants convo)) (messages convo)
  = Ok stats' ->
  keys stats' = keys (initial_stats mode (participants convo)) /\
  NoDup (keys stats') /\
  forall name,
    In name (keys stats') <->
    In name (participants convo) \/ name = intervals_key.
Proof.
  intros Hloop.
  destruct (shaped_initial mode (participants convo)) as [[l Hl] _].
  destruct (analyze_loop_evolves _ _ _ _ _ _ Hl Hloop)
    as (_ & _ & _ & _ & _ & _ & Hkeys).
  rewrite Hkeys. split; [reflexivity | split].
  - apply nodup_keys_initial.
  - intros name. apply in_keys_initial.
Qed.

Lemma fold_keeps_the_keys_witness :
  exists stats',
    analyze_loop [] monthly (initial_stats monthly [alice]) two_texts
    = Ok stats' /\
    keys stats' = [alice; intervals_key].
Proof.
  destruct (analyze_loop_total [] monthly [alice] two_texts _
              (shaped_initial monthly [alice]) well_formed_alone)
    as (stats' & Hloop).
  exists stats'. split; [exact Hloop|].
  destruct (fold_keeps_the_keys [] monthly alone_convo stats' Hloop)
    as (Hkeys & _).
  rewrite Hkeys. reflexivity.
Defined.

(** ** The order of the interval rows *)

Lemma average_out_get_intervals (stats : stats_table Z)
    (final : stats_table number) (l : list interval_key) :
  average_out stats = Ok final ->
  get pystr_eq_dec intervals_key stats = Some (Intervals l) ->
  get pystr_eq_dec intervals_key final = Some (Intervals l).
Proof.
  intros Havg Hl.
  pose proof (for_each_get pystr_eq_dec average_entry stats final Havg
                intervals_key) as H.
  rewrite Hl in H. destruct H as (v' & Hv & Hget).
  unfold average_entry in Hv.
  destruct (pystr_eq_dec intervals_key intervals_key); [|contradiction].
  inversion Hv; subst v'. exact Hget.
Qed.

(** X3.  When [analyze] reaches the printer, the rows of the hourly
    analysis are the hours 0 to 23 in ascending order, whatever the
    messages; the rows of the monthly and yearly analyses are the distinct
    intervals of the messages in the order in which the messages first
    reach them, so the first row is the interval of the first message.  No
    interval is printed twice and none of a message is left out. *)
Theorem rows_follow_first_appearance (UNICODE_EMOJI : list pystr)
    (convo : conversation) (mode : interval_mode)
    (final : stats_table number) :
  analyze UNICODE_EMOJI convo mode = Ok final ->
  let seen :=
    first_seen [] (List.map (interval_of mode) (messages convo)) in
  print_interval_stats final mode =
    Ok (match mode with
        | hourly => List.map Hour (range 24)
        | monthly | yearly => seen
        end) /\
  NoDup seen /\
  (forall interval,
      In interval seen <->
      exists msg, In msg (messages convo) /\ interval_of mode msg = interval)
  /\
  (forall msg rest,
      messages convo = msg :: rest ->
      exists more, seen = interval_of mode msg :: more).
Proof.
  intros Hrun seen. unfold analyze in Hrun.
  destruct (analyze_loop UNICODE_EMOJI mode
              (initial_stats mode (participants convo)) (messages convo))
    as [stats|e] eqn:Hloop; cbn [bind] in Hrun; [|discriminate].
  destruct (shaped_initial mode (participants convo)) as [[l Hl] _].
  assert (l = []) as ->.
  { rewrite get_initial_stats in Hl.
    destruct (pystr_eq_dec intervals_key intervals_key); [|contradiction].
    now inversion Hl. }
  destruct (analyze_loop_evolves _ _ _ _ _ _ Hl Hloop) as (_ & Hl' & _).
  pose proof (average_out_get_intervals _ _ _ Hrun Hl') as Hfinal.
  split; [|split; [|split]].
  - unfold print_interval_stats, subscript. rewrite Hfinal.
    destruct mode; reflexivity.
  - apply first_seen_nodup. constructor.
  - intros interval. unfold seen. rewrite first_seen_in, in_map_iff.
    cbn [In]. split.
    + intros [[]|(msg & E & Hin)]. eauto.
    + intros (msg & Hin & E). right. eauto.
  - intros msg rest E. unfold seen. rewrite E.
    cbn [List.map first_seen in_dec app].
    destruct (first_seen_extends (List.map (interval_of mode) rest)
                [interval_of mode msg]) as [more ->].
    now exists more.
Qed.

Lemma rows_follow_first_appearance_witness :
  exists final,
    analyze [] backwards_convo monthly = Ok final /\
    print_interval_stats final monthly =
    Ok [Label (py "2018-02"); Label (py "2018-01")].
Proof.
  destruct (analyze [] backwards_convo monthly) as [final|e] eqn:Hrun;
    [|vm_compute in Hrun; discriminate].
  exists final. split; [reflexivity|].
  destruct (rows_follow_first_appearance [] backwards_convo monthly final
              Hrun) as (Hrows & _).
  exact Hrows.
Defined.

(** The rows that the printer iterates over. *)
Lemma analyze_rows (UNICODE_EMOJI : list pystr) (convo : conversation)
    (mode : interval_mode) (final : stats_table number) :
  analyze UNICODE_EMOJI convo mode = Ok final ->
  print_interval_stats final mode =
    Ok (match mode with
        | hourly => List.map Hour (range 24)
        | monthly | yearly =>
            first_seen [] (List.map (interval_of mode) (messages convo))
        end).
Proof.
  intros Hrun. unfold analyze in Hrun.
  destruct (analyze_loop UNICODE_EMOJI mode
              (initial_stats mode (participants convo)) (messages convo))
    as [stats|e] eqn:Hloop; cbn [bind] in Hrun; [|discriminate].
  destruct (shaped_initial mode (participants convo)) as [[l Hl] _].
  assert (l = []) as ->.
  { rewrite get_initial_stats in Hl.
    destruct (pystr_eq_dec intervals_key intervals_key); [|contradiction].
    now inversion Hl. }
  destruct (analyze_loop_evolves _ _ _ _ _ _ Hl Hloop) as (_ & Hl' & _).
  pose proof (average_out_get_intervals _ _ _ Hrun Hl') as Hfinal.
  unfold print_interval_stats, subscript. rewrite Hfinal.
  destruct mode; reflexivity.
Qed.

Lemma ascending_snoc (l : list interval_key) (x : interval_key) :
  ascending l = true ->
  (forall s, In s l -> interval_lt s x = true) ->
  ascending (l ++ [x]) = true.
Proof.
  induction l as [|a l IH]; [reflexivity|].
  intros Hasc Hlt. destruct l as [|b l].
  - cbn. rewrite (Hlt a (or_introl eq_refl)). reflexivity.
  - cbn [ascending app] in *. apply andb_prop in Hasc as [Hab Hrest].
    rewrite Hab. cbn [andb]. apply IH; [exact Hrest|].
    intros s Hs. apply Hlt. now right.
Qed.

(** Intervals that arrive in order are recorded in ascending order. *)
Lemma first_seen_in_order (l seen : list interval_key) :
  ascending seen = true ->
  (forall s y, In s seen -> In y l -> s = y \/ interval_lt s y = true) ->
  in_order l ->
  ascending (first_seen seen l) = true.
Proof.
  revert seen. induction l as [|x l IH]; intros seen Hasc Hbelow Hord.
  - exact Hasc.
  - apply StronglySorted_inv in Hord as [Hord Hx].
    rewrite Forall_forall in Hx. cbn [first_seen].
    destruct (in_dec interval_key_eq_dec x seen) as [Hin|Hout].
    + apply IH; [exact Hasc | | exact Hord].
      intros s y Hs Hy. apply Hbelow; [exact Hs | now right].
    + apply IH; [| | exact Hord].
      * apply ascending_snoc; [exact Hasc|].
        intros s Hs.
        destruct (Hbelow s x Hs (or_introl eq_refl)) as [->|Hlt];
          [contradiction | exact Hlt].
      * intros s y Hs Hy. apply in_app_or in Hs as [Hs|[<-|[]]].
        -- apply Hbelow; [exact Hs | now right].
        -- now apply Hx.
Qed.

(** C3, as the code has it.  When [analyze] reaches the printer, the rows
    of the hourly analysis are the hours 0 to 23 in ascending order, whatever
    the messages.  The rows of the monthly and yearly analyses are not
    sorted: they are the distinct intervals in the order in which the
    messages first reach them, which is ascending when no message comes
    before one of an earlier interval. *)
Theorem rows_ascend_when_the_messages_do (UNICODE_EMOJI : list pystr)
    (convo : conversation) (mode : interval_mode)
    (final : stats_table number) :
  analyze UNICODE_EMOJI convo mode = Ok final ->
  exists rows,
    print_interval_stats final mode = Ok rows /\
    match mode with
    | hourly => rows = List.map Hour (range 24) /\ ascending rows = true
    | monthly | yearly =>
        rows = first_seen [] (List.map (interval_of mode) (messages convo))
        /\
        (in_order (List.map (interval_of mode) (messages convo)) ->
         ascending rows = true)
    end.
Proof.
  intros Hrun. eexists. split; [exact (analyze_rows _ _ _ _ Hrun)|].
  destruct mode.
  - split; reflexivity.
  - split; [reflexivity|]. intros Hord.
    apply first_seen_in_order;
      [reflexivity | intros s y [] | exact Hord].
  - split; [reflexivity|]. intros Hord.
    apply first_seen_in_order;
      [reflexivity | intros s y [] | exact Hord].
Qed.

Lemma rows_ascend_when_the_messages_do_witness :
  exists final rows,
    analyze [] forwards_convo monthly = Ok final /\
    print_interval_stats final monthly = Ok rows /\
    rows = [Label (py "2018-01"); Label (py "2018-02")] /\
    ascending rows = true.
Proof.
  destruct (analyze [] forwards_convo monthly) as [final|e] eqn:Hrun;
    [|vm_compute in Hrun; discriminate].
  destruct (rows_ascend_when_the_messages_do [] forwards_convo monthly final
              Hrun) as (rows & Hrows & Hseen & Hasc).
  exists final, rows. split; [reflexivity|]. split; [exact Hrows|].
  split; [exact Hseen|]. apply Hasc.
  apply SSorted_cons; [apply SSorted_cons; [apply SSorted_nil|]|].
  - apply Forall_nil.
  - apply Forall_cons; [right; reflexivity | apply Forall_nil].
Defined.

(** C3 as stated fails on messages that arrive newest first, as an export
    lists them: the row of February is printed before the row of January. *)
Lemma newest_first_rows_descend :
  exists final rows,
    analyze [] backwards_convo monthly = Ok final /\
    print_interval_stats final monthly = Ok rows /\
    rows = [Label (py "2018-02"); Label (py "2018-01")] /\
    ascending rows = false.
Proof.
  destruct (analyze [] backwards_convo monthly) as [final|e] eqn:Hrun;
    [|vm_compute in Hrun; discriminate].
  exists final, [Label (py "2018-02"); Label (py "2018-01")].
  split; [reflexivity|].
  split; [rewrite (analyze_rows _ _ _ _ Hrun); reflexivity|].
  split; reflexivity.
Qed.

(** ** The averaging pass *)

Section AveragingFacts.
Variable UNICODE_EMOJI : list pystr.

Lemma average_interval_run (c : counters Z) :
  average_interval c = Ok (averaged c).
Proof.
  unfold average_interval, averaged, true_div.
  destruct (msgs_sent c >? 0) eqn:E; [|reflexivity].
  destruct (Z.eqb_spec (msgs_sent c) 0) as [Z0|NZ]; [|reflexivity].
  rewrite Z0 in E. discriminate.
Qed.

Lemma for_each_average_interval (d : dict interval_key (counters Z)) :
  for_each (fun _ c => average_interval c) d =
  Ok (List.map (fun e => (fst e, averaged (snd e))) d).
Proof.
  induction d as [|[k c] d IH]; [reflexivity|].
  cbn [for_each]. rewrite average_interval_run, IH. reflexivity.
Qed.

(** The pass over one profile: the general division is not guarded. *)
Lemma average_profile_run (p : profile Z) :
  average_profile p =
  if msgs_sent (general p) =? 0 then Err ZeroDivisionError
  else Ok {| general :=
               with_avg_msg_len (general p)
                 (PyFloat (avg_msg_len (general p))
                    (msgs_sent (general p)));
             int := List.map (fun e => (fst e, averaged (snd e))) (int p) |}.
Proof.
  unfold average_profile, average_general, true_div.
  destruct (msgs_sent (general p) =? 0); [reflexivity|].
  cbn [bind]. now rewrite for_each_average_interval.
Qed.

Lemma get_map_values {V W : Type} (g : V -> W) (k : interval_key)
    (d : dict interval_key V) :
  get interval_key_eq_dec k (List.map (fun e => (fst e, g (snd e))) d) =
  option_map g (get interval_key_eq_dec k d).
Proof.
  induction d as [|[k0 v0] d IH]; [reflexivity|].
  cbn [List.map get fst snd]. now destruct (interval_key_eq_dec k k0).
Qed.

(** The profile of a participant at the end of the fold. *)
Lemma analyze_loop_profile (mode : interval_mode) (convo : conversation)
    (stats' : stats_table Z) (name : pystr) :
  analyze_loop UNICODE_EMOJI mode
    (initial_stats mode (participants convo)) (messages convo)
  = Ok stats' ->
  In name (participants convo) -> name <> intervals_key ->
  exists p,
    get pystr_eq_dec name stats' = Some (Person p) /\
    general p = tally_of UNICODE_EMOJI name (messages convo) /\
    forall interval,
      counters_at interval (int p) =
      tally_of UNICODE_EMOJI name
        (in_interval mode interval (messages convo)).
Proof.
  intros Hloop Hin Hname.
  assert (Hinit : get pystr_eq_dec name
                    (initial_stats mode (participants convo)) =
                  Some (Person (create_stats mode))).
  { rewrite get_initial_stats.
    destruct (pystr_eq_dec name intervals_key); [contradiction|].
    destruct (in_dec pystr_eq_dec name (participants convo));
      [reflexivity | contradiction]. }
  destruct (analyze_loop_tallied _ _ _ _ _ Hloop name _ Hinit)
    as (p & Hp & Hg & Hi).
  exists p. split; [exact Hp | split].
  - rewrite Hg. destruct mode; apply counters_add_zero_l.
  - intros interval.
    now rewrite Hi, counters_at_create_stats, counters_add_zero_l.
Qed.

(** The table at the end of the fold: its shape and its entries. *)
Lemma analyze_loop_entries (mode : interval_mode) (convo : conversation)
    (stats' : stats_table Z) :
  analyze_loop UNICODE_EMOJI mode
    (initial_stats mode (participants convo)) (messages convo)
  = Ok stats' ->
  forall k v,
    In (k, v) stats' ->
    (k = intervals_key /\ exists l, v = Intervals l) \/
    (k <> intervals_key /\ In k (participants convo) /\
     exists p, v = Person p /\
               general p = tally_of UNICODE_EMOJI k (messages convo)).
Proof.
  intros Hloop k v Hin.
  destruct (shaped_initial mode (participants convo)) as [[l Hl] Hs].
  pose proof (analyze_loop_evolves _ _ _ _ _ _ Hl Hloop) as Hev.
  pose proof (evolves_shaped (participants convo) _ _ _ _ _ Hev
                (shaped_initial mode (participants convo)))
    as [[l' Hl'] Hs'].
  assert (Hnd : NoDup (keys stats')).
  { destruct Hev as (_ & _ & _ & _ & _ & _ & Hkeys). rewrite Hkeys.
    apply nodup_keys_initial. }
  pose proof (in_get pystr_eq_dec stats' k v Hnd Hin) as Hget.
  destruct (pystr_eq_dec k intervals_key) as [->|N].
  - left. split; [reflexivity|]. exists l'. congruence.
  - right. split; [exact N|].
    destruct (in_dec pystr_eq_dec k (participants convo)) as [I|NI].
    + split; [exact I|].
      destruct (analyze_loop_profile mode convo stats' k Hloop I N)
        as (p & Hp & Hg & _).
      exists p. split; [congruence | exact Hg].
    + destruct (Hs' k N) as [_ Hout]. rewrite (Hout NI) in Hget.
      discriminate.
Qed.

Lemma contribution_msgs_sent (name : pystr) (msg : Msg.message) :
  msgs_sent (contribution UNICODE_EMOJI name msg) =
  int_of_bool (wrote name msg) /\
  avg_msg_len (contribution UNICODE_EMOJI name msg) =
  if wrote name msg then len (get_or_empty (Msg.content msg)) else 0.
Proof. split; reflexivity. Qed.

(** Without a text of [name] neither messages nor lengths are counted. *)
Lemma tally_of_no_text (name : pystr) (msgs : list Msg.message) :
  0 <= msgs_sent (tally_of UNICODE_EMOJI name msgs) /\
  (msgs_sent (tally_of UNICODE_EMOJI name msgs) = 0 ->
   avg_msg_len (tally_of UNICODE_EMOJI name msgs) = 0).
Proof.
  induction msgs as [|msg msgs [IH0 IH]]; [split; [cbn; lia | reflexivity]|].
  cbn [tally_of fold_right]. fold (tally_of UNICODE_EMOJI name msgs).
  cbn [counters_add msgs_sent avg_msg_len].
  destruct (contribution_msgs_sent name msg) as [-> ->].
  destruct (wrote name msg); cbn [int_of_bool]; split; lia.
Qed.

Lemma tally_of_some_text (name : pystr) (msgs : list Msg.message) :
  (exists msg, In msg msgs /\ wrote name msg = true) <->
  0 < msgs_sent (tally_of UNICODE_EMOJI name msgs).
Proof.
  induction msgs as [|msg msgs IH].
  - cbn. split; [intros (m & [] & _) | lia].
  - cbn [tally_of fold_right]. fold (tally_of UNICODE_EMOJI name msgs).
    cbn [counters_add msgs_sent].
    destruct (contribution_msgs_sent name msg) as [-> _].
    pose proof (proj1 (tally_of_no_text name msgs)) as H0.
    destruct (wrote name msg) eqn:W; cbn [int_of_bool].
    + split; [lia|]. intros _. exists msg. split; [now left | exact W].
    + rewrite Z.add_0_l, <- IH. split.
      * intros (m & [<-|Hm] & Hw); [congruence | eauto].
      * intros (m & Hm & Hw). exists m. split; [now right | exact Hw].
Qed.

End AveragingFacts.

(** X4.  The division of a participant's sum of lengths by the number of
    messages is not guarded: on a conversation whose senders and actors are
    participants, [analyze] raises [ZeroDivisionError] as soon as one
    participant whose name is not ['intervals'] has sent no message with
    text; in particular on every conversation without messages that has
    such a participant.  (The entry of a participant called ['intervals'] is
    replaced by the list of intervals and skipped by the averaging loop.) *)
Theorem silent_participant_stops_the_averaging (UNICODE_EMOJI : list pystr)
    (mode : interval_mode) (convo : conversation) :
  well_formed convo ->
  (exists name,
      In name (participants convo) /\ name <> intervals_key /\
      forall msg, In msg (messages convo) -> wrote name msg = false) ->
  analyze UNICODE_EMOJI convo mode = Err ZeroDivisionError.
Proof.
  intros Hwf (name & Hin & Hname & Hsilent).
  destruct (analyze_loop_total UNICODE_EMOJI mode (participants convo)
              (messages convo) _ (shaped_initial mode (participants convo))
              Hwf) as [stats' Hloop].
  unfold analyze. rewrite Hloop. cbn [bind]. unfold average_out.
  apply for_each_raises.
  - intros k v Hkv.
    destruct (analyze_loop_entries _ _ _ _ Hloop k v Hkv)
      as [[-> [l ->]] | (N & _ & p & -> & _)]; unfold average_entry.
    + left. destruct (pystr_eq_dec intervals_key intervals_key);
        [eauto | contradiction].
    + destruct (pystr_eq_dec k intervals_key); [contradiction|].
      rewrite average_profile_run.
      destruct (msgs_sent (general p) =? 0); cbn [bind]; eauto.
  - destruct (analyze_loop_profile _ _ _ _ _ Hloop Hin Hname)
      as (p & Hp & Hg & _).
    exists name, (Person p). split; [now apply (get_in pystr_eq_dec)|].
    unfold average_entry.
    destruct (pystr_eq_dec name intervals_key); [contradiction|].
    rewrite average_profile_run, Hg.
    destruct (Z.eqb_spec
                (msgs_sent (tally_of UNICODE_EMOJI name (messages convo))) 0)
      as [_|NZ]; [reflexivity|].
    exfalso.
    pose proof (proj1 (tally_of_no_text UNICODE_EMOJI name (messages convo))).
    assert (Hpos : 0 < msgs_sent
                         (tally_of UNICODE_EMOJI name (messages convo)))
      by lia.
    apply tally_of_some_text in Hpos as (msg & Hmsg & Hw).
    rewrite (Hsilent msg Hmsg) in Hw. discriminate.
Qed.

Lemma well_formed_lurker : well_formed lurker_convo.
Proof.
  intros msg name Hmsg Hname. unfold declared.
  assert (name = alice) as ->.
  { destruct Hmsg as [<-|[<-|[]]]; destruct Hname as [<-|[]]; reflexivity. }
  split; [right; now left | discriminate].
Defined.

Lemma silent_participant_stops_the_averaging_witness :
  analyze [] lurker_convo monthly = Err ZeroDivisionError.
Proof.
  apply (silent_participant_stops_the_averaging [] monthly lurker_convo
           well_formed_lurker).
  exists bob. split; [now left | split; [discriminate|]].
  intros msg [<-|[<-|[]]]; reflexivity.
Defined.

(** X5.  On a conversation whose senders and actors are participants and in
    which every participant (other than one called ['intervals']) has sent a
    message with text, [analyze] completes and hands the printer a table in
    which every such participant's average length is the [float] that the
    division of the sum of the lengths of the participant's texts by their
    number returns, and in which every interval entry is averaged on its
    own: by the number of the participant's texts in that interval when
    there is one, and left at the integer 0 otherwise. *)
Theorem averages_are_quotients (UNICODE_EMOJI : list pystr)
    (mode : interval_mode) (convo : conversation) :
  well_formed convo ->
  (forall name,
      In name (participants convo) -> name <> intervals_key ->
      exists msg, In msg (messages convo) /\ wrote name msg = true) ->
  exists final,
    analyze UNICODE_EMOJI convo mode = Ok final /\
    forall name,
      In name (participants convo) -> name <> intervals_key ->
      exists p',
        let all := tally_of UNICODE_EMOJI name (messages convo) in
        get pystr_eq_dec name final = Some (Person p') /\
        0 < msgs_sent all /\
        msgs_sent (general p') = msgs_sent all /\
        avg_msg_len (general p') =
          PyFloat (avg_msg_len all) (msgs_sent all)
        /\
        forall interval c',
          get interval_key_eq_dec interval (int p') = Some c' ->
          let part :=
            tally_of UNICODE_EMOJI name
              (in_interval mode interval (messages convo)) in
          msgs_sent c' = msgs_sent part /\
          avg_msg_len c' =
            if msgs_sent part >? 0
            then PyFloat (avg_msg_len part) (msgs_sent part)
            else PyInt 0.
Proof.
  intros Hwf Htalk.
  destruct (analyze_loop_total UNICODE_EMOJI mode (participants convo)
              (messages convo) _ (shaped_initial mode (participants convo))
              Hwf) as [stats' Hloop].
  assert (Hpos : forall name,
             In name (participants convo) -> name <> intervals_key ->
             0 < msgs_sent (tally_of UNICODE_EMOJI name (messages convo))).
  { intros name Hin Hname. apply tally_of_some_text. now apply Htalk. }
  destruct (for_each_completes average_entry stats') as [final Hfinal].
  { intros k v Hkv.
    destruct (analyze_loop_entries _ _ _ _ Hloop k v Hkv)
      as [[-> [l ->]] | (N & I & p & -> & Hg)]; unfold average_entry.
    - destruct (pystr_eq_dec intervals_key intervals_key);
        [eauto | contradiction].
    - destruct (pystr_eq_dec k intervals_key); [contradiction|].
      rewrite average_profile_run, Hg.
      specialize (Hpos k I N).
      destruct (Z.eqb_spec
                  (msgs_sent (tally_of UNICODE_EMOJI k (messages convo))) 0);
        [lia | cbn [bind]; eauto]. }
  exists final. unfold analyze. rewrite Hloop. cbn [bind].
  split; [exact Hfinal|].
  intros name Hin Hname.
  destruct (analyze_loop_profile _ _ _ _ _ Hloop Hin Hname)
    as (p & Hp & Hg & Hi).
  pose proof (for_each_get pystr_eq_dec average_entry stats' final Hfinal
                name) as Hget.
  rewrite Hp in Hget. destruct Hget as (v' & Hv & Hget).
  unfold average_entry in Hv.
  destruct (pystr_eq_dec name intervals_key); [contradiction|].
  rewrite average_profile_run, Hg in Hv.
  specialize (Hpos name Hin Hname).
  destruct (Z.eqb_spec
              (msgs_sent (tally_of UNICODE_EMOJI name (messages convo))) 0)
    as [Z0|_]; [lia|].
  cbn [bind] in Hv. inversion Hv; subst v'. clear Hv.
  eexists. cbv zeta. split; [exact Hget|].
  split; [exact Hpos|]. cbn [general int with_avg_msg_len msgs_sent
                              avg_msg_len].
  split; [reflexivity | split; [reflexivity|]].
  intros interval c' Hc'. rewrite get_map_values in Hc'.
  destruct (get interval_key_eq_dec interval (int p)) as [c|] eqn:Hc;
    [|discriminate].
  cbn [option_map] in Hc'. inversion Hc'; subst c'.
  rewrite <- (Hi interval), (counters_at_get _ _ _ Hc).
  unfold averaged. cbn [with_avg_msg_len msgs_sent avg_msg_len].
  split; [reflexivity|].
  destruct (msgs_sent c >? 0) eqn:E; [reflexivity|].
  f_equal.
  pose proof (tally_of_no_text UNICODE_EMOJI name
                (in_interval mode interval (messages convo))) as [H0 Hz].
  rewrite <- (Hi interval), (counters_at_get _ _ _ Hc) in H0, Hz.
  apply Hz. rewrite Z.gtb_ltb in E.
  destruct (Z.ltb_spec 0 (msgs_sent c)); [discriminate | lia].
Qed.

Lemma averages_are_quotients_witness :
  exists final p',
    analyze [] alone_convo monthly = Ok final /\
    get pystr_eq_dec alice final = Some (Person p') /\
    avg_msg_len (general p') = PyFloat 10 2 /\
    List.map (fun e => avg_msg_len (snd e)) (int p') = [PyFloat 10 2].
Proof.
  destruct (averages_are_quotients [] monthly alone_convo well_formed_alone)
    as (final & Hrun & Hall).
  - intros name [<-|[]] _.
    exists (text_message alice noon_in_march (py "abcd")).
    split; [now left | reflexivity].
  - destruct (Hall alice (or_introl eq_refl)) as (p' & Hget & _ & _ & Havg & _);
      [discriminate|].
    exists final, p'. split; [exact Hrun | split; [exact Hget|]].
    split; [exact Havg|].
    vm_compute in Hrun. inversion Hrun; subst final.
    vm_compute in Hget. inversion Hget; subst p'. reflexivity.
Defined.

(** C1.  The division of a participant's sum of lengths by the number of
    messages is not guarded, where the division of an interval entry is: on
    the conversation of one participant and no message [analyze] raises
    [ZeroDivisionError] in every mode, because the counters of a participant
    without messages are divided by zero, while the same counters as an
    interval entry would keep the average 0. *)
Theorem silent_conversation_divides_by_zero (UNICODE_EMOJI : list pystr)
    (mode : interval_mode) :
  analyze UNICODE_EMOJI silent_convo mode = Err ZeroDivisionError /\
  average_general _create_stats = Err ZeroDivisionError /\
  average_interval _create_stats =
    Ok (with_avg_msg_len _create_stats (PyInt 0)).
Proof.
  split; [destruct mode; reflexivity | split; reflexivity].
Qed.




(** ** The order of the messages *)

Section OrderFacts.
Variable UNICODE_EMOJI : list pystr.

Lemma counters_add_comm (a b : counters Z) :
  counters_add a b = counters_add b a.
Proof. counters_eq. Qed.

Lemma tally_of_permutation (name : pystr) (msgs msgs' : list Msg.message) :
  Permutation msgs msgs' ->
  tally_of UNICODE_EMOJI name msgs = tally_of UNICODE_EMOJI name msgs'.
Proof.
  induction 1 as [|m l l' _ IH|m m' l|l l' l'' _ IH _ IH'].
  - reflexivity.
  - cbn [tally_of fold_right]. fold (tally_of UNICODE_EMOJI name l).
    fold (tally_of UNICODE_EMOJI name l'). now rewrite IH.
  - cbn [tally_of fold_right]. fold (tally_of UNICODE_EMOJI name l).
    rewrite <- !counters_add_assoc.
    now rewrite (counters_add_comm (contribution UNICODE_EMOJI name m')).
  - now rewrite IH.
Qed.

Lemma in_interval_permutation (mode : interval_mode)
    (interval : interval_key) (msgs msgs' : list Msg.message) :
  Permutation msgs msgs' ->
  Permutation (in_interval mode interval msgs)
    (in_interval mode interval msgs').
Proof.
  induction 1 as [|m l l' _ IH|m m' l|l l' l'' _ IH _ IH'].
  - constructor.
  - rewrite !in_interval_cons.
    destruct (interval_key_eq_dec (interval_of mode m) interval);
      [now constructor | exact IH].
  - rewrite !in_interval_cons.
    destruct (interval_key_eq_dec (interval_of mode m) interval);
      destruct (interval_key_eq_dec (interval_of mode m') interval);
      try reflexivity.
    apply perm_swap.
  - now transitivity (in_interval mode interval l').
Qed.

End OrderFacts.

(** X6.  The counters do not depend on the order of the messages: on a
    conversation whose senders and actors are participants, the fold over
    any rearrangement of the messages completes as well and gives every
    participant the same general counters and, interval by interval, the
    same interval counters. *)
Theorem order_does_not_change_the_counters (UNICODE_EMOJI : list pystr)
    (mode : interval_mode) (names : list pystr)
    (msgs msgs' : list Msg.message) :
  Permutation msgs msgs' ->
  well_formed {| participants := names; messages := msgs |} ->
  exists stats stats',
    analyze_loop UNICODE_EMOJI mode (initial_stats mode names) msgs
    = Ok stats /\
    analyze_loop UNICODE_EMOJI mode (initial_stats mode names) msgs'
    = Ok stats' /\
    forall name,
      In name names -> name <> intervals_key ->
      exists p p',
        get pystr_eq_dec name stats = Some (Person p) /\
        get pystr_eq_dec name stats' = Some (Person p') /\
        general p = general p' /\
        forall interval,
          counters_at interval (int p) = counters_at interval (int p').
Proof.
  intros Hperm Hwf.
  assert (Hwf' : well_formed {| participants := names; messages := msgs' |}).
  { intros msg name Hmsg. apply Hwf.
    eapply Permutation_in; [symmetry; exact Hperm | exact Hmsg]. }
  destruct (analyze_loop_total UNICODE_EMOJI mode names msgs _
              (shaped_initial mode names) Hwf) as [stats Hloop].
  destruct (analyze_loop_total UNICODE_EMOJI mode names msgs' _
              (shaped_initial mode names) Hwf') as [stats' Hloop'].
  exists stats, stats'. split; [exact Hloop | split; [exact Hloop'|]].
  intros name Hin Hname.
  destruct (analyze_loop_profile UNICODE_EMOJI mode
              {| participants := names; messages := msgs |}
              stats name Hloop Hin Hname) as (p & Hp & Hg & Hi).
  destruct (analyze_loop_profile UNICODE_EMOJI mode
              {| participants := names; messages := msgs' |}
              stats' name Hloop' Hin Hname) as (p' & Hp' & Hg' & Hi').
  exists p, p'. split; [exact Hp | split; [exact Hp'|]].
  cbn [messages] in *. split.
  - rewrite Hg, Hg'. now apply tally_of_permutation.
  - intros interval. rewrite Hi, Hi'.
    now apply tally_of_permutation, in_interval_permutation.
Qed.

Lemma order_does_not_change_the_counters_witness :
  exists stats stats' p p',
    analyze_loop [] monthly (initial_stats monthly [alice]) two_texts
    = Ok stats /\
    analyze_loop [] monthly (initial_stats monthly [alice]) (rev two_texts)
    = Ok stats' /\
    get pystr_eq_dec alice stats = Some (Person p) /\
    get pystr_eq_dec alice stats' = Some (Person p') /\
    general p = general p'.
Proof.
  destruct (order_does_not_change_the_counters [] monthly [alice]
              two_texts (rev two_texts) (Permutation_rev two_texts)
              well_formed_alone) as (stats & stats' & H & H' & Hall).
  destruct (Hall alice (or_introl eq_refl)) as (p & p' & Hp & Hp' & Hg & _);
    [discriminate|].
  exists stats, stats', p, p'. repeat split; assumption.
Defined.

(** ** Intervals as buckets *)

Section BucketFacts.

Lemma digit_at_inj (y y' k : Z) :
  0 <= y -> 0 <= y' -> 0 <= k ->
  digit_at y k = digit_at y' k ->
  (y / 10 ^ k) mod 10 = (y' / 10 ^ k) mod 10.
Proof.
  intros Hy Hy' Hk H. unfold digit_at in H.
  apply (f_equal Z.of_N) in H.
  assert (P : 0 < 10 ^ k) by (apply Z.pow_pos_nonneg; lia).
  pose proof (Z.mod_pos_bound (y / 10 ^ k) 10).
  pose proof (Z.mod_pos_bound (y' / 10 ^ k) 10).
  rewrite !Z2N.id in H by lia. lia.
Qed.

Lemma year_of_digits (y y' : Z) :
  1000 <= y <= 9999 -> 1000 <= y' <= 9999 ->
  str_of_int y = str_of_int y' -> y = y'.
Proof.
  intros Hy Hy' H. rewrite !str_of_year in H by assumption.
  inversion H as [[H3 H2 H1 H0]].
  apply digit_at_inj in H3, H2, H1, H0; try lia.
  change (10 ^ 3) with 1000 in H3. change (10 ^ 2) with 100 in H2.
  change (10 ^ 1) with 10 in H1. change (10 ^ 0) with 1 in H0.
  Z.to_euclidean_division_equations. lia.
Qed.

Lemma month_of_digits (m m' : Z) :
  1 <= m <= 12 -> 1 <= m' <= 12 -> fmt_02d m = fmt_02d m' -> m = m'.
Proof.
  intros Hm Hm' H. rewrite !fmt_02d_month in H by assumption.
  inversion H as [[H1 H0]].
  apply digit_at_inj in H1, H0; try lia.
  change (10 ^ 1) with 10 in H1. change (10 ^ 0) with 1 in H0.
  Z.to_euclidean_division_equations. lia.
Qed.

End BucketFacts.

(** X7.  The interval names the bucket without collision: two timestamps
    at or after the epoch get the same hourly interval exactly when their
    hours are equal, the same monthly interval exactly when year and month
    are equal, and the same yearly interval exactly when the years are. *)
Theorem same_interval_same_bucket (a b : datetime) :
  valid_stamp a -> valid_stamp b ->
  (get_correct_interval a hourly = get_correct_interval b hourly <->
   hour a = hour b) /\
  (get_correct_interval a monthly = get_correct_interval b monthly <->
   year a = year b /\ month a = month b) /\
  (get_correct_interval a yearly = get_correct_interval b yearly <->
   year a = year b).
Proof.
  intros (Hya & Hma & _) (Hyb & Hmb & _).
  unfold get_correct_interval. repeat split.
  - intros H. now inversion H.
  - intros ->. reflexivity.
  - inversion H as [H'].
    rewrite !str_of_year in H' by lia.
    cbn [app] in H'. inversion H' as [[H3 H2 H1 H0 Hm]].
    apply year_of_digits; [lia | lia |].
    rewrite !str_of_year by lia. congruence.
  - inversion H as [H'].
    rewrite !str_of_year in H' by lia.
    cbn [app] in H'. inversion H' as [[H3 H2 H1 H0 Hm]].
    now apply month_of_digits.
  - intros [-> ->]. reflexivity.
  - intros H. inversion H as [H']. apply year_of_digits; [lia | lia | exact H'].
  - intros ->. reflexivity.
Qed.

Lemma same_interval_same_bucket_witness :
  get_correct_interval noon_in_march monthly <>
  get_correct_interval (first_of 2018 2) monthly.
Proof.
  assert (Va : valid_stamp noon_in_march) by (unfold valid_stamp; cbn; lia).
  assert (Vb : valid_stamp (first_of 2018 2))
    by (unfold valid_stamp; cbn; lia).
  destruct (same_interval_same_bucket noon_in_march (first_of 2018 2) Va Vb)
    as (_ & Hmonth & _).
  intros H. apply Hmonth in H as [_ H]. discriminate.
Defined.

(** ** Interval entries and rows *)

Section Reworking.
Variable UNICODE_EMOJI : list pystr.
Variable interval : interval_key.
Variable R : profile Z -> profile Z -> Prop.
Hypothesis R_refl : forall p, R p p.
Hypothesis R_trans : forall p q r, R p q -> R q r -> R p r.
Hypothesis R_applied : forall p f, R p (applied interval f p).

Lemma reworked_refl (stats : stats_table Z) : reworked R stats stats.
Proof. intros name p Hp. eauto. Qed.

Lemma reworked_trans (s0 s1 s2 : stats_table Z) :
  reworked R s0 s1 -> reworked R s1 s2 -> reworked R s0 s2.
Proof.
  intros H1 H2 name p Hp.
  destruct (H1 name p Hp) as (p1 & Hp1 & R1).
  destruct (H2 name p1 Hp1) as (p2 & Hp2 & R2). eauto.
Qed.

Lemma reworked_note (l l' : list interval_key) (stats : stats_table Z) :
  get pystr_eq_dec intervals_key stats = Some (Intervals l) ->
  reworked R stats (set pystr_eq_dec intervals_key (Intervals l') stats).
Proof.
  intros Hl name p Hp. exists p.
  rewrite get_set_other by congruence. auto.
Qed.

Lemma reworked_applied (stats : stats_table Z) (who : pystr)
    (p : profile Z) (f : counters Z -> counters Z) :
  profile_of stats who = Ok p ->
  reworked R stats
    (set pystr_eq_dec who (Person (applied interval f p)) stats).
Proof.
  intros Hp name q Hq. apply profile_of_get in Hp.
  destruct (pystr_eq_dec who name) as [<-|N].
  - assert (q = p) as -> by congruence.
    exists (applied interval f p). split; [apply get_set_same | auto].
  - exists q. rewrite get_set_other by congruence. auto.
Qed.

Lemma handle_reactions_loop_reworked (rs : list Msg.reaction) :
  forall stats stats' : stats_table Z,
    handle_reactions_loop stats interval rs = Ok stats' ->
    reworked R stats stats'.
Proof.
  induction rs as [|r rs IH]; intros stats stats' H.
  - inversion H; subst. apply reworked_refl.
  - destruct (profile_of stats (Msg.actor r)) as [q|e] eqn:Hq.
    + rewrite (handle_reactions_loop_cons _ _ _ _ _ Hq) in H.
      eapply reworked_trans;
        [apply (reworked_applied _ _ _ (add_reactions 1) Hq)|].
      apply IH, H.
    + rewrite (handle_reactions_loop_stops _ _ _ _ _ Hq) in H.
      discriminate.
Qed.

Lemma handle_links_reworked (stats stats' : stats_table Z)
    (msg : Msg.message) :
  when (truthy (Msg.share msg)) (handle_links stats interval msg) stats
  = Ok stats' ->
  reworked R stats stats'.
Proof.
  intros H. destruct (truthy (Msg.share msg)); cbn [when] in H.
  - destruct (profile_of stats (Msg.sender_name msg)) as [q|e] eqn:Hq.
    + destruct (get interval_key_eq_dec interval (int q)) as [c|] eqn:Hc.
      * rewrite (handle_links_run _ _ _ _ _ Hq Hc) in H.
        inversion H; subst.
        apply (reworked_applied _ _ _ (add_links_sent 1) Hq).
      * rewrite (handle_links_stops _ _ _ _ Hq Hc) in H. discriminate.
    + unfold handle_links, upd_general in H. rewrite Hq in H. discriminate.
  - inversion H; subst. apply reworked_refl.
Qed.

Lemma analyze_step_reworked (mode : interval_mode)
    (stats stats' : stats_table Z) (msg : Msg.message) :
  interval_of mode msg = interval ->
  analyze_step UNICODE_EMOJI mode stats msg = Ok stats' ->
  reworked R stats stats'.
Proof.
  intros Hi H.
  destruct (get pystr_eq_dec intervals_key stats) as [[q|l]|] eqn:Hl;
    try (unfold analyze_step, note_interval, subscript in H;
         rewrite Hl in H; discriminate).
  destruct (profile_of stats (Msg.sender_name msg)) as [p|e] eqn:Hp;
    [|rewrite (analyze_step_stops _ _ _ _ _ _ Hl Hp) in H; discriminate].
  rewrite (analyze_step_run _ _ _ _ _ _ Hl Hp) in H. cbv zeta in H.
  rewrite Hi in H.
  set (noted := set pystr_eq_dec intervals_key _ stats) in H.
  assert (Hp' : profile_of noted (Msg.sender_name msg) = Ok p).
  { unfold noted. rewrite profile_of_set_other; [exact Hp|].
    apply profile_of_get in Hp. congruence. }
  pose proof (reworked_note l (first_seen l [interval]) stats Hl) as Hnote.
  fold noted in Hnote.
  pose proof (reworked_applied noted _ p
                (sender_update UNICODE_EMOJI msg) Hp') as Hsent.
  set (sent := set pystr_eq_dec (Msg.sender_name msg) _ noted) in *.
  destruct (handle_reactions_loop sent interval
              (get_or_empty (Msg.reactions msg)))
    as [reacted|e] eqn:Hloop; cbn [bind] in H; [|discriminate].
  eapply reworked_trans; [exact Hnote|].
  eapply reworked_trans; [exact Hsent|].
  eapply reworked_trans;
    [apply (handle_reactions_loop_reworked _ _ _ Hloop)|].
  apply (handle_links_reworked _ _ _ H).
Qed.

End Reworking.

Section EntryFacts.
Variable UNICODE_EMOJI : list pystr.

Lemma entries_within_applied (interval : interval_key) (p : profile Z)
    (f : counters Z -> counters Z) :
  entries_within [interval] p (applied interval f p).
Proof.
  intros j Hj. destruct (interval_key_eq_dec j interval) as [->|N].
  - right. now left.
  - left. unfold has_key in *. cbn [applied int] in Hj.
    now rewrite get_set_other in Hj.
Qed.

Lemma analyze_loop_entries_within (mode : interval_mode)
    (msgs : list Msg.message) :
  forall stats stats' : stats_table Z,
    analyze_loop UNICODE_EMOJI mode stats msgs = Ok stats' ->
    reworked (entries_within (List.map (interval_of mode) msgs))
      stats stats'.
Proof.
  induction msgs as [|msg msgs IH]; intros stats stats' H.
  - inversion H; subst. intros name p Hp. exists p.
    split; [exact Hp|]. intros j Hj. now left.
  - cbn [analyze_loop] in H.
    destruct (analyze_step UNICODE_EMOJI mode stats msg)
      as [next|e] eqn:Hstep; cbn [bind] in H; [|discriminate].
    pose proof (analyze_step_reworked UNICODE_EMOJI (interval_of mode msg)
                  (entries_within [interval_of mode msg])) as Hone.
    specialize (Hone (fun p j Hj => or_introl Hj)).
    specialize (Hone (fun p q r Hpq Hqr j Hj =>
                        match Hqr j Hj with
                        | or_introl Hq => Hpq j Hq
                        | or_intror Hin => or_intror Hin
                        end)).
    specialize (Hone (entries_within_applied (interval_of mode msg))
                  mode stats next msg eq_refl Hstep).
    intros name p Hp.
    destruct (Hone name p Hp) as (p1 & Hp1 & R1).
    destruct (IH _ _ H name p1 Hp1) as (p' & Hp' & R').
    exists p'. split; [exact Hp'|].
    intros j Hj. cbn [List.map In].
    destruct (R' j Hj) as [Hq|Hin]; [|tauto].
    destruct (R1 j Hq) as [Ho|[<-|[]]]; tauto.
Qed.

Lemma has_key_map_values {V W : Type} (g : V -> W) (k : interval_key)
    (d : dict interval_key V) :
  has_key interval_key_eq_dec k (List.map (fun e => (fst e, g (snd e))) d) =
  has_key interval_key_eq_dec k d.
Proof.
  unfold has_key. rewrite (get_map_values g).
  now destruct (get interval_key_eq_dec k d).
Qed.

(** The averaging pass keeps the interval entries of every profile. *)
Lemma average_entry_has_key (name : pystr) (e : slot Z) (p' : profile number)
    (interval : interval_key) :
  average_entry name e = Ok (Person p') ->
  exists p,
    e = Person p /\
    has_key interval_key_eq_dec interval (int p') =
    has_key interval_key_eq_dec interval (int p).
Proof.
  unfold average_entry.
  destruct (pystr_eq_dec name intervals_key).
  - destruct e as [p|l]; cbn [untouched]; intros H; inversion H.
    exists p. split; [reflexivity|]. cbn [int].
    unfold has_key. clear.
    induction (int p) as [|[k c] d IH]; [reflexivity|].
    cbn [List.map get]. now destruct (interval_key_eq_dec interval k).
  - destruct e as [p|l]; [|discriminate].
    rewrite average_profile_run.
    destruct (msgs_sent (general p) =? 0); cbn [bind]; [discriminate|].
    intros H. inversion H. exists p. split; [reflexivity|].
    cbn [int]. apply has_key_map_values.
Qed.

Lemma in_hours (h : Z) :
  0 <= h <= 23 -> In (Hour h) (List.map Hour (range 24)).
Proof.
  intros Hh. apply in_map. unfold range. apply in_map_iff.
  exists (Z.to_nat h). split; [lia|]. apply in_seq. lia.
Qed.

Lemma has_key_create_stats (mode : interval_mode) (interval : interval_key) :
  has_key interval_key_eq_dec interval (int (create_stats mode)) = true ->
  mode = hourly /\ In interval (List.map Hour (range 24)).
Proof.
  unfold has_key.
  destruct (get interval_key_eq_dec interval (int (create_stats mode)))
    as [c|] eqn:E; [intros _ | discriminate].
  assert (Hin : In interval (keys (int (create_stats mode)))).
  { apply (get_in_keys interval_key_eq_dec). eauto. }
  destruct mode; [split; [reflexivity | exact Hin] | destruct Hin ..].
Qed.

End EntryFacts.

(** X8.  No interval entry goes unprinted: when [analyze] reaches the
    printer with messages whose timestamps are calendar dates, every
    interval for which some participant's profile has an entry is among
    the rows that [print_interval_stats] prints. *)
Theorem every_entry_has_a_row (UNICODE_EMOJI : list pystr)
    (convo : conversation) (mode : interval_mode)
    (final : stats_table number) :
  analyze UNICODE_EMOJI convo mode = Ok final ->
  (forall msg, In msg (messages convo) -> valid_stamp (Msg.timestamp msg)) ->
  exists rows,
    print_interval_stats final mode = Ok rows /\
    forall name p interval,
      get pystr_eq_dec name final = Some (Person p) ->
      has_key interval_key_eq_dec interval (int p) = true ->
      In interval rows.
Proof.
  intros Hrun Hvalid. unfold analyze in Hrun.
  destruct (analyze_loop UNICODE_EMOJI mode
              (initial_stats mode (participants convo)) (messages convo))
    as [stats|e] eqn:Hloop; cbn [bind] in Hrun; [|discriminate].
  destruct (shaped_initial mode (participants convo)) as [[l Hl] _].
  assert (l = []) as ->.
  { rewrite get_initial_stats in Hl.
    destruct (pystr_eq_dec intervals_key intervals_key); [|contradiction].
    now inversion Hl. }
  pose proof (analyze_loop_evolves _ _ _ _ _ _ Hl Hloop) as Hev.
  destruct Hev as (_ & Hl' & _ & _ & Hprof & _).
  pose proof (average_out_get_intervals _ _ _ Hrun Hl') as Hfinal.
  set (seen := first_seen [] (List.map (interval_of mode) (messages convo)))
    in *.
  exists (match mode with
          | hourly => List.map Hour (range 24)
          | monthly | yearly => seen
          end).
  split.
  { unfold print_interval_stats, subscript. rewrite Hfinal.
    destruct mode; reflexivity. }
  intros name p' interval Hp' Hkey.
  pose proof (for_each_get pystr_eq_dec average_entry stats final Hrun name)
    as Hget.
  destruct (get pystr_eq_dec name stats) as [v|] eqn:Hv; [|congruence].
  destruct Hget as (v' & Hentry & Hget). rewrite Hp' in Hget.
  inversion Hget; subst v'.
  destruct (average_entry_has_key _ _ _ interval Hentry) as (p & -> & Hsame).
  rewrite Hsame in Hkey.
  destruct (proj2 (Hprof name) (ex_intro _ p Hv)) as [p0 Hp0].
  destruct (analyze_loop_entries_within UNICODE_EMOJI mode _ _ _ Hloop
              name p0 Hp0) as (p1 & Hp1 & Hwithin).
  assert (p1 = p) as -> by congruence.
  assert (p0 = create_stats mode) as ->.
  { rewrite get_initial_stats in Hp0.
    destruct (pystr_eq_dec name intervals_key); [discriminate|].
    destruct (in_dec pystr_eq_dec name (participants convo));
      [now inversion Hp0 | discriminate]. }
  destruct (Hwithin interval Hkey) as [Hinit|Hmsg].
  - destruct (has_key_create_stats _ _ Hinit) as [-> Hin]. exact Hin.
  - destruct mode; [|now apply first_seen_in; right ..].
    apply in_map_iff in Hmsg as (msg & <- & Hin).
    apply in_hours. apply (Hvalid msg Hin).
Qed.

Lemma every_entry_has_a_row_witness :
  exists final rows,
    analyze [] alone_convo hourly = Ok final /\
    print_interval_stats final hourly = Ok rows /\ In (Hour 14) rows.
Proof.
  destruct (analyze [] alone_convo hourly) as [final|e] eqn:Hrun;
    [|vm_compute in Hrun; discriminate].
  destruct (every_entry_has_a_row [] alone_convo hourly final Hrun)
    as (rows & Hrows & Hall).
  - intros msg [<-|[<-|[]]]; unfold valid_stamp; cbn; lia.
  - exists final, rows. split; [reflexivity | split; [exact Hrows|]].
    destruct (get pystr_eq_dec alice final) as [[p|l]|] eqn:Hp;
      try (vm_compute in Hrun; inversion Hrun; subst final;
           vm_compute in Hp; discriminate).
    apply (Hall alice p (Hour 14) Hp).
    vm_compute in Hrun. inversion Hrun; subst final.
    vm_compute in Hp. inversion Hp. reflexivity.
Defined.

(** ** Relevant folders *)

Section RelevanceFacts.
Variable lower : pystr -> pystr.

Lemma fold_left_count {A : Type} (f : A -> bool) (l : list A) (acc : Z) :
  fold_left (fun a x => a + (if f x then 1 else 0)) l acc =
  acc + Z.of_nat (List.length (filter f l)).
Proof.
  revert acc; induction l as [|x l IH]; intros acc; cbn [fold_left filter].
  - cbn. lia.
  - rewrite IH. destruct (f x); cbn [List.length]; lia.
Qed.

Lemma score_relevance_count (folder s : pystr) :
  score_relevance lower folder s =
  Z.of_nat (List.length (words_found lower folder s)).
Proof.
  unfold score_relevance, words_found. cbv zeta.
  now rewrite (fold_left_count (fun part => str_in part folder)).
Qed.

Lemma score_relevance_positive (folder s : pystr) :
  0 < score_relevance lower folder s <->
  exists word,
    In word (split 32 (lower s)) /\ str_in word folder = true.
Proof.
  rewrite score_relevance_count. unfold words_found.
  destruct (filter (fun part => str_in part folder) (split 32 (lower s)))
    as [|w ws] eqn:E.
  - cbn. split; [lia|]. intros (word & Hin & Hw).
    assert (H : In word []) by (rewrite <- E; apply filter_In; auto).
    contradiction.
  - cbn [List.length]. split; [intros _ | lia].
    assert (H : In w (w :: ws)) by now left.
    rewrite <- E in H. apply filter_In in H. eauto.
Qed.

Section Sorting.
Context {A : Type}.
Variable key : A -> Z.

Lemma insert_reversed_perm (x : A) (l : list A) :
  Permutation (insert_reversed key x l) (x :: l).
Proof.
  induction l as [|y l IH]; cbn [insert_reversed]; [reflexivity|].
  destruct (key x <? key y); [|reflexivity].
  rewrite IH. apply perm_swap.
Qed.

Lemma sorted_reversed_perm (l : list A) :
  Permutation (sorted_reversed key l) l.
Proof.
  induction l as [|x l IH]; [reflexivity|].
  unfold sorted_reversed in *. cbn [fold_right].
  rewrite insert_reversed_perm. now constructor.
Qed.

Lemma insert_reversed_sorted (x : A) (l : list A) :
  StronglySorted (fun a b => key b <= key a) l ->
  StronglySorted (fun a b => key b <= key a) (insert_reversed key x l).
Proof.
  induction l as [|y l IH]; intros H; cbn [insert_reversed].
  - repeat constructor.
  - inversion H as [|? ? Hl Hy]; subst.
    destruct (Z.ltb_spec (key x) (key y)) as [Hlt|Hge].
    + constructor; [now apply IH|].
      eapply Permutation_Forall;
        [symmetry; apply insert_reversed_perm|].
      constructor; [lia | exact Hy].
    + constructor; [exact H|].
      constructor; [lia|].
      eapply Forall_impl; [|exact Hy]. cbn beta. intros; lia.
Qed.

Lemma sorted_reversed_sorted (l : list A) :
  StronglySorted (fun a b => key b <= key a) (sorted_reversed key l).
Proof.
  induction l as [|x l IH]; [constructor|].
  unfold sorted_reversed in *. cbn [fold_right].
  now apply insert_reversed_sorted.
Qed.

Lemma insert_reversed_stable (k : Z) (x : A) (l : list A) :
  filter (fun y => key y =? k) (insert_reversed key x l) =
  filter (fun y => key y =? k) (x :: l).
Proof.
  induction l as [|y l IH]; cbn [insert_reversed]; [reflexivity|].
  destruct (Z.ltb_spec (key x) (key y)) as [Hlt|Hge]; [|reflexivity].
  cbn [filter] in *. rewrite IH.
  destruct (Z.eqb_spec (key x) k); destruct (Z.eqb_spec (key y) k);
    try reflexivity.
  lia.
Qed.

Lemma sorted_reversed_stable (k : Z) (l : list A) :
  filter (fun y => key y =? k) (sorted_reversed key l) =
  filter (fun y => key y =? k) l.
Proof.
  induction l as [|x l IH]; [reflexivity|].
  unfold sorted_reversed in *. cbn [fold_right].
  rewrite insert_reversed_stable. cbn [filter]. now rewrite IH.
Qed.

(** Nothing moves when all keys are equal. *)
Lemma sorted_reversed_constant (k : Z) (l : list A) :
  Forall (fun x => key x = k) l -> sorted_reversed key l = l.
Proof.
  induction 1 as [|x l Hx Hl IH]; [reflexivity|].
  unfold sorted_reversed in *. cbn [fold_right]. rewrite IH.
  destruct l as [|y l]; [reflexivity|]. cbn [insert_reversed].
  inversion Hl; subst.
  destruct (Z.ltb_spec (key x) (key y)); [lia | reflexivity].
Qed.

End Sorting.

End RelevanceFacts.

(** X9.  [get_relevant_people_folders] returns the folders whose name holds
    at least one word of the query, each as often as it was given, in
    descending order of the number of words found; folders with the same
    number keep the order in which they were given. *)
Theorem relevant_folders_are_ranked (lower : pystr -> pystr)
    (folders : list pystr) (s : pystr) :
  let score := fun f => score_relevance lower f s in
  let found := get_relevant_people_folders lower folders s in
  Permutation found (filter (fun f => score f >? 0) folders) /\
  StronglySorted (fun a b => score b <= score a) found /\
  (forall k,
      filter (fun f => score f =? k) found =
      filter (fun f => score f =? k)
        (filter (fun f => score f >? 0) folders)) /\
  (forall f,
      In f found <->
      In f folders /\
      exists word, In word (split 32 (lower s)) /\ str_in word f = true).
Proof.
  intros score found. unfold found, get_relevant_people_folders. cbv zeta.
  fold score.
  split; [apply sorted_reversed_perm | split].
  - apply sorted_reversed_sorted.
  - split; [intros k; apply sorted_reversed_stable|].
    intros f. rewrite <- score_relevance_positive. fold (score f).
    split.
    + intros H.
      apply (Permutation_in _ (sorted_reversed_perm score _)) in H.
      apply filter_In in H as [Hin Hs]. split; [exact Hin|].
      rewrite Z.gtb_ltb in Hs. now apply Z.ltb_lt.
    + intros [Hin Hs].
      apply (Permutation_in _
               (Permutation_sym (sorted_reversed_perm score _))).
      apply filter_In. split; [exact Hin|].
      rewrite Z.gtb_ltb. now apply Z.ltb_lt.
Qed.

(** X10.  The empty word is found in every name: when the query, once in
    lower case and split at the spaces, has an empty word (it is empty, or
    begins or ends with a space, or has two spaces in a row), every folder
    scores at least 1 and none is left out; when the query is empty in lower
    case, all folders come back in the order given. *)
Theorem empty_word_matches_every_folder (lower : pystr -> pystr)
    (folders : list pystr) (s : pystr) :
  In [] (split 32 (lower s)) ->
  (forall folder, 1 <= score_relevance lower folder s) /\
  Permutation (get_relevant_people_folders lower folders s) folders /\
  (lower s = [] -> get_relevant_people_folders lower folders s = folders).
Proof.
  intros Hempty.
  assert (Hone : forall folder, 1 <= score_relevance lower folder s).
  { intros folder.
    assert (H : 0 < score_relevance lower folder s); [|lia].
    apply score_relevance_positive. exists []. split; [exact Hempty|].
    now destruct folder. }
  assert (Hall : filter (fun f => score_relevance lower f s >? 0) folders
                 = folders).
  { induction folders as [|f l IH]; [reflexivity|]. cbn [filter].
    specialize (Hone f). rewrite Z.gtb_ltb.
    destruct (Z.ltb_spec 0 (score_relevance lower f s)); [|lia].
    now rewrite IH. }
  split; [exact Hone | split].
  - unfold get_relevant_people_folders. cbv zeta. rewrite Hall.
    apply sorted_reversed_perm.
  - intros Hlow. unfold get_relevant_people_folders. cbv zeta.
    rewrite Hall. apply (sorted_reversed_constant _ 1).
    apply Forall_forall. intros f _.
    rewrite score_relevance_count. unfold words_found. rewrite Hlow.
    now destruct f.
Qed.

Lemma empty_word_matches_every_folder_witness :
  get_relevant_people_folders (fun s => s) [py "msgs/bob"; py "msgs/carl"]
    (py "")
  = [py "msgs/bob"; py "msgs/carl"].
Proof.
  apply (empty_word_matches_every_folder (fun s => s)
           [py "msgs/bob"; py "msgs/carl"] (py "")).
  - now left.
  - reflexivity.
Defined.
